(** * torchdyn.core.utils: Augmenter, DepthCat, DataControl, SCIPY_SOLVERS

    A shallow embedding of [torchdyn/core/utils.py] together with the part of
    the tensor framework its three [forward] methods call
    ([torch.zeros], [torch.ones], [torch.cat], [*], [.to]).

    Modelling decisions.
    - A tensor is its shape (a list of sizes) together with its entries as a
      nested array.  The shape is kept explicitly because a nested array
      alone forgets the inner sizes of a tensor with an empty axis.
    - Entries and Python scalars are drawn from one type [elt] with the
      constants and the product of the dtype (class [Dtype]); there is one
      dtype and one device, so [.to(x)] is the identity cast.  Rounding and
      dtype promotion are outside the model.
    - Exceptions are values of [error]; a computation that may raise returns
      a [result].  [DepthCat.forward] assigns to [self.s], so it takes the
      instance and returns the instance after the call.
    - Indices and dims are Python integers: a negative one counts from the
      end, one out of range raises.
    - [augment_func] is a callable with a Python truth value, because
      [Augmenter.forward] tests [if not self.augment_func].  A [module] is
      the callable as it behaves during one call; a [stateful_module] is a
      callable that keeps state from one call to the next. *)

From stdpp Require Import base option list strings gmap.
From Stdlib Require Import ZArith Lia.

Local Open Scope Z_scope.
Local Open Scope nat_scope.

(** ** The table of scipy solvers *)

Record solver_config := SolverConfig {
  method : string;
  options : gmap string string;
}.

Definition scipy_entry (solver : string) : solver_config :=
  {| method := "scipy_solver"; options := {["solver" := solver]} |}.

Definition SCIPY_SOLVERS : gmap string solver_config :=
  list_to_map [
    ("scipy_LSODA", scipy_entry "LSODA");
    ("scipy_RK45", scipy_entry "RK45");
    ("scipy_RK23", scipy_entry "RK23");
    ("scipy_DOP853", scipy_entry "DOP853");
    ("scipy_BDF", scipy_entry "BDF");
    ("scipy_Radau", scipy_entry "Radau")
  ].

(** ** Exceptions *)

(** The operation at which an exception is raised. *)
Inductive operation :=
  | OpSetItem   (* new_dims[i] = v           *)
  | OpZeros     (* torch.zeros(dims)         *)
  | OpOnes      (* torch.ones(dims)          *)
  | OpMul       (* self.s * tensor           *)
  | OpCat       (* torch.cat([a, b], dim)    *)
  | OpCall.     (* self.augment_func(x)      *)

Inductive error :=
  | IndexError (op : operation)     (* index or dim out of range            *)
  | TypeError (op : operation)      (* None where a tensor is required      *)
  | RuntimeError (op : operation).  (* size mismatch, negative size, ...    *)

Inductive result (A : Type) :=
  | Ok (a : A)
  | Raise (e : error).
Arguments Ok {A} a.
Arguments Raise {A} e.

#[global] Instance result_ret : MRet result := λ A a, Ok a.
#[global] Instance result_bind : MBind result := λ A B f m,
  match m with Ok a => f a | Raise e => Raise e end.
#[global] Instance result_fmap : FMap result := λ A B f m,
  match m with Ok a => Ok (f a) | Raise e => Raise e end.

(** ** The dtype *)

Class Dtype (elt : Type) := {
  elt_zero : elt;
  elt_one : elt;
  elt_mul : elt → elt → elt;
}.

(** The only arithmetic the three modules rely on: one is a unit of the
    product (true of integer and of IEEE floating-point multiplication). *)
Class DtypeUnit (elt : Type) `{Dtype elt} : Prop := {
  elt_mul_1_l : ∀ v : elt, elt_mul elt_one v = v;
  elt_mul_1_r : ∀ v : elt, elt_mul v elt_one = v;
}.

#[global] Instance Z_dtype : Dtype Z :=
  {| elt_zero := 0%Z; elt_one := 1%Z; elt_mul := Z.mul |}.

(** ** Tensors *)

#[local] Set Warnings "-register-all".
Inductive nd (A : Type) :=
  | Leaf (v : A)
  | Node (l : list (nd A)).
Arguments Leaf {A} v.
Arguments Node {A} l.

Record tensor (A : Type) := Tensor { shape : list nat; data : nd A }.
Arguments Tensor {A} shape data.
Arguments shape {A} t.
Arguments data {A} t.

Section NestedArrays.
Context {A : Type}.

(** The children of a node (none for a leaf). *)
Definition children (d : nd A) : list (nd A) :=
  match d with Node l => l | Leaf _ => [] end.

(** [conformsb sh d]: the nested array [d] has exactly the shape [sh]. *)
Fixpoint conformsb (sh : list nat) (d : nd A) : bool :=
  match sh, d with
  | [], Leaf _ => true
  | n :: sh', Node l =>
      bool_decide (length l = n) && forallb (conformsb sh') l
  | _, _ => false
  end.

Definition wf (t : tensor A) : Prop := conformsb (shape t) (data t).

(** Every entry equal to [v]. *)
Fixpoint full_data (v : A) (sh : list nat) : nd A :=
  match sh with
  | [] => Leaf v
  | n :: sh' => Node (replicate n (full_data v sh'))
  end.

Definition full (v : A) (sh : list nat) : tensor A :=
  Tensor sh (full_data v sh).

(** Entrywise application of [f]. *)
Fixpoint map_data (f : A → A) (d : nd A) : nd A :=
  match d with
  | Leaf v => Leaf (f v)
  | Node l => Node (map (map_data f) l)
  end.

Definition tmap (f : A → A) (t : tensor A) : tensor A :=
  Tensor (shape t) (map_data f (data t)).

(** Entrywise combination of two arrays of the same shape. *)
Fixpoint zip_data (f : A → A → A) (a b : nd A) : nd A :=
  match a, b with
  | Leaf x, Leaf y => Leaf (f x y)
  | Node la, Node lb => Node (zip_with (zip_data f) la lb)
  | _, _ => a
  end.

(** Concatenation along axis [k]. *)
Fixpoint cat_data (k : nat) (a b : nd A) : nd A :=
  match k with
  | 0 => Node (children a ++ children b)
  | S k' => Node (zip_with (cat_data k') (children a) (children b))
  end.

(** The slice [start, start + len) along axis [k] (torch.narrow). *)
Fixpoint narrow_data (k start len : nat) (d : nd A) : nd A :=
  match k with
  | 0 => Node (take len (drop start (children d)))
  | S k' => Node (map (narrow_data k' start len) (children d))
  end.

Definition narrow (t : tensor A) (k start len : nat) : tensor A :=
  Tensor (<[k := len]> (shape t)) (narrow_data k start len (data t)).

(** The entry at a full index. *)
Fixpoint item_data (idx : list nat) (d : nd A) : option A :=
  match idx, d with
  | [], Leaf v => Some v
  | i :: idx', Node l => l !! i ≫= item_data idx'
  | _, _ => None
  end.

Definition item (t : tensor A) (idx : list nat) : option A :=
  item_data idx (data t).

(** Size of axis [k] (0 when there is no such axis). *)
Definition size (t : tensor A) (k : nat) : nat := default 0 (shape t !! k).

(** [a] followed by [b] along axis [k]. *)
Definition cat_axis (a b : tensor A) (k : nat) : tensor A :=
  Tensor (<[k := size a k + size b k]> (shape a))
         (cat_data k (data a) (data b)).

End NestedArrays.

(** ** Python lists and the tensor framework *)

(** [l[i] = v] on a Python list: indices [0 .. len-1] and their negative
    aliases [-len .. -1] are accepted, anything else raises IndexError. *)
Definition py_index (len : nat) (i : Z) : option nat :=
  if bool_decide (0 ≤ i < Z.of_nat len)%Z then Some (Z.to_nat i)
  else if bool_decide (- Z.of_nat len ≤ i < 0)%Z
       then Some (Z.to_nat (Z.of_nat len + i))
       else None.

Definition py_setitem (l : list Z) (i : Z) (v : Z) : result (list Z) :=
  match py_index (length l) i with
  | Some k => Ok (<[k := v]> l)
  | None => Raise (IndexError OpSetItem)
  end.

Section Torch.
Context {elt : Type} `{Dtype elt}.

(** [list(x.shape)] *)
Definition shape_list (x : tensor elt) : list Z := Z.of_nat <$> shape x.

(** [torch.zeros(dims)] and [torch.ones(dims)]: a negative size is refused. *)
Definition torch_full (op : operation) (v : elt) (dims : list Z)
  : result (tensor elt) :=
  if forallb (λ n, bool_decide (0 ≤ n)%Z) dims
  then Ok (full v (Z.to_nat <$> dims))
  else Raise (RuntimeError op).

Definition torch_zeros : list Z → result (tensor elt) :=
  torch_full OpZeros elt_zero.
Definition torch_ones : list Z → result (tensor elt) :=
  torch_full OpOnes elt_one.

(** [t.to(x)]: cast [t] to the dtype and device of [x].  One dtype, one
    device: the cast returns [t]. *)
Definition to (t x : tensor elt) : tensor elt := t.

(** A dim argument is wrapped like a Python index. *)
Definition wrap_dim (op : operation) (rank : nat) (dim : Z) : result nat :=
  match py_index rank dim with
  | Some k => Ok k
  | None => Raise (IndexError op)
  end.

(** Shapes that agree on every axis except [k]. *)
Definition agree_off (k : nat) (sa sb : list nat) : bool :=
  bool_decide (<[k := 0]> sa = <[k := 0]> sb).

(** For legacy reasons torch.cat ignores a 1-D empty tensor. *)
Definition cat_skips (t : tensor elt) : bool := bool_decide (shape t = [0]).

(** [torch.cat([a, b], dim)].  A tensor without axes, at either position,
    cannot be concatenated: that is checked first, before [dim] is looked
    at.  Then the two tensors must have the same shape except along [dim]
    (or be 1-D empty, in which case they are left out; the result is 1-D
    empty when both are); [dim] is wrapped against the first tensor that is
    not left out. *)
Definition torch_cat (a b : tensor elt) (dim : Z) : result (tensor elt) :=
  if bool_decide (shape a = []) || bool_decide (shape b = [])
  then Raise (RuntimeError OpCat)
  else if cat_skips a && cat_skips b then Ok (Tensor [0] (Node []))
  else
    let first := if cat_skips a then b else a in
    k ← wrap_dim OpCat (length (shape first)) dim;
    if cat_skips a then Ok b
    else if cat_skips b then Ok a
    else if agree_off k (shape a) (shape b)
    then Ok (cat_axis a b k)
    else Raise (RuntimeError OpCat).

(** *** Broadcasting *)

(** Broadcast of two shapes given last axis first. *)
Fixpoint broadcast_rev (ra rb : list nat) : option (list nat) :=
  match ra, rb with
  | [], _ => Some rb
  | _, [] => Some ra
  | n :: ra', m :: rb' =>
      if bool_decide (n = m) then cons n <$> broadcast_rev ra' rb'
      else if bool_decide (n = 1) then cons m <$> broadcast_rev ra' rb'
      else if bool_decide (m = 1) then cons n <$> broadcast_rev ra' rb'
      else None
  end.

Definition broadcast_shapes (sa sb : list nat) : option (list nat) :=
  reverse <$> broadcast_rev (reverse sa) (reverse sb).

(** [n] new leading axes of size 1. *)
Definition unsqueeze_data (n : nat) (d : nd elt) : nd elt :=
  Nat.iter n (λ d', Node [d']) d.

(** Expansion of an array of shape [src] to shape [tgt] of the same rank:
    an axis of size 1 is repeated. *)
Fixpoint expand_data (src tgt : list nat) (d : nd elt) : nd elt :=
  match src, tgt with
  | n :: src', m :: tgt' =>
      if bool_decide (n = m)
      then Node (map (expand_data src' tgt') (children d))
      else Node (replicate m
                   (expand_data src' tgt' (default d (head (children d)))))
  | _, _ => d
  end.

Definition expand_to (tgt : list nat) (t : tensor elt) : nd elt :=
  let pad := length tgt - length (shape t) in
  expand_data (replicate pad 1 ++ shape t) tgt (unsqueeze_data pad (data t)).

(** [a * b] on two tensors. *)
Definition torch_mul (a b : tensor elt) : result (tensor elt) :=
  match broadcast_shapes (shape a) (shape b) with
  | Some sh =>
      Ok (Tensor sh (zip_data elt_mul (expand_to sh a) (expand_to sh b)))
  | None => Raise (RuntimeError OpMul)
  end.

End Torch.

(** ** The three modules *)

(** A callable object, as far as [Augmenter] looks at it: its truth value
    and what calling it returns.  Python's [not obj] asks [obj.__bool__()],
    then [obj.__len__() != 0], and is false for an object with neither; an
    [nn.Module] has neither, its containers ([nn.Sequential], ...) have
    [__len__]. *)
Record module (elt : Type) := Module_ {
  truthy : bool;
  call : tensor elt → result (tensor elt);
}.
Arguments Module_ {elt} truthy call.
Arguments truthy {elt} m.
Arguments call {elt} m x.

(** The callable of a field that [if not field] lets through. *)
Definition py_truthy {elt} (f : option (module elt)) : option (module elt) :=
  match f with
  | Some m => if truthy m then Some m else None
  | None => None
  end.

Module Augmenter.
Section Augmenter.
Context {elt : Type} `{Dtype elt}.

Record t := make {
  augment_idx : Z;
  augment_dims : Z;
  augment_func : option (module elt);
  order : string;
}.

(** [__init__(self, augment_idx=1, augment_dims=5, augment_func=None,
    order='first')] *)
Definition init_default : t :=
  {| augment_idx := 1; augment_dims := 5; augment_func := None;
     order := "first" |}.

Definition forward (self : t) (x : tensor elt) : result (tensor elt) :=
  match py_truthy (augment_func self) with
  | None =>
      new_dims ← py_setitem (shape_list x) (augment_idx self)
                            (augment_dims self);
      if String.eqb (order self) "first"
      then z ← torch_zeros new_dims;
           torch_cat (to z x) x (augment_idx self)
      else z ← torch_zeros new_dims;
           torch_cat x (to z x) (augment_idx self)
  | Some f =>
      if String.eqb (order self) "first"
      then a ← call f x;
           torch_cat (to a x) x (augment_idx self)
      else a ← call f x;
           torch_cat x (to a x) (augment_idx self)
  end.

End Augmenter.
Arguments t elt : clear implicits.
End Augmenter.

Module DepthCat.
Section DepthCat.
Context {elt : Type} `{Dtype elt}.

(** What the solver stores in [s]: a Python number or a tensor. *)
Inductive depth :=
  | Scalar (v : elt)
  | Tens (t : tensor elt).

Record t := make {
  idx_cat : Z;
  s : option depth;
}.

(** [__init__(self, idx_cat=1)] *)
Definition init (idx_cat : Z) : t := {| idx_cat := idx_cat; s := None |}.

(** The assignment [self.s = v] made by the solver. *)
Definition set_s (self : t) (v : option depth) : t :=
  {| idx_cat := idx_cat self; s := v |}.

(** [self.s * t].  A Python number defers to the tensor's reflected
    product, which multiplies every entry by the number. *)
Definition py_mul (v : option depth) (t : tensor elt) : result (tensor elt) :=
  match v with
  | None => Raise (TypeError OpMul)
  | Some (Scalar c) => Ok (tmap (λ e, elt_mul e c) t)
  | Some (Tens a) => torch_mul a t
  end.

(** Returns the instance after the call and what the call returns. *)
Definition forward (self : t) (x : tensor elt) : t * result (tensor elt) :=
  match
    s_shape ← py_setitem (shape_list x) (idx_cat self) 1;
    ones ← torch_ones s_shape;
    py_mul (s self) (to ones x)
  with
  | Raise e => (self, Raise e)
  | Ok prod =>
      let self' := set_s self (Some (Tens prod)) in
      (self', (λ y, to y x) <$> torch_cat x prod (idx_cat self'))
  end.

End DepthCat.
Arguments t elt : clear implicits.
Arguments depth elt : clear implicits.
End DepthCat.

Module DataControl.
Section DataControl.
Context {elt : Type} `{Dtype elt}.

Record t := make {
  u : option (tensor elt);
}.

(** [__init__(self)] *)
Definition init : t := {| u := None |}.

Definition forward (self : t) (x : tensor elt) : result (tensor elt) :=
  match u self with
  | None => Raise (TypeError OpCat)
  | Some c => (λ y, to y x) <$> torch_cat x c 1
  end.

End DataControl.
Arguments t elt : clear implicits.
End DataControl.

(** ** Vocabulary of the statements *)

(** The tensor [DepthCat.forward] appends for a depth [v]: axis [k] of [x]'s
    shape resized to 1, every entry [v]. *)
Definition depth_block {elt} (v : elt) (x : tensor elt) (k : nat) : tensor elt :=
  full v (<[k := 1]> (shape x)).

(** [s] holds the scalar [v]: as a Python number or as a tensor without
    axes (the depth a solver hands over). *)
Definition scalar_depth {elt} (v : elt) (d : DepthCat.depth elt) : Prop :=
  d = DepthCat.Scalar v ∨ d = DepthCat.Tens (Tensor [] (Leaf v)).

(** The tensor [Augmenter.forward] pads with: axis [k] of [x]'s shape
    resized to [d], every entry zero. *)
Definition zeros_block {elt} `{Dtype elt} (d : nat) (x : tensor elt) (k : nat)
    : tensor elt :=
  full elt_zero (<[k := d]> (shape x)).

(** A size [n] that broadcasts to the size [m]. *)
Definition fits (n m : nat) : Prop := n = m ∨ n = 1.

(** Number of axes. *)
Definition rank {elt} (x : tensor elt) : nat := length (shape x).

(** The operation an exception comes from. *)
Definition error_site (e : error) : operation :=
  match e with IndexError op | TypeError op | RuntimeError op => op end.

(** The call raised, and the exception comes from operation [op]. *)
Definition fails_at {A} (op : operation) (r : result A) : Prop :=
  ∃ e, r = Raise e ∧ error_site e = op.

(** The augmentation tensor of [Augmenter.forward]: zeros of [x]'s shape
    with axis [augment_idx] resized to [augment_dims], or what the learned
    callable returns. *)
Definition augmentation {elt} `{Dtype elt} (self : Augmenter.t elt)
    (x : tensor elt) : result (tensor elt) :=
  match py_truthy (Augmenter.augment_func self) with
  | None =>
      new_dims ← py_setitem (shape_list x) (Augmenter.augment_idx self)
                            (Augmenter.augment_dims self);
      torch_zeros new_dims
  | Some f => call f x
  end.

(** Two [augment_func] values that cannot be told apart on the input [x]. *)
Definition same_callable_at {elt} (x : tensor elt)
    (f g : option (module elt)) : Prop :=
  match f, g with
  | None, None => True
  | Some m, Some m' => truthy m = truthy m' ∧ call m x = call m' x
  | _, _ => False
  end.

(** An [nn.Module] can keep state of its own between calls (the running
    statistics of batch normalisation, the random generator behind dropout,
    a counter): what a call returns then depends on a hidden state, which
    the call advances. *)
Record stateful_module (elt : Type) := Stateful {
  hidden : Type;
  st_truthy : bool;
  st_call : hidden → tensor elt → result (tensor elt) * hidden;
}.
Arguments Stateful {elt} hidden st_truthy st_call.
Arguments hidden {elt} _.
Arguments st_truthy {elt} _.
Arguments st_call {elt} _ _ _.

(** The callable as it behaves while its hidden state is [h]. *)
Definition snapshot {elt} (m : stateful_module elt) (h : hidden m)
    : module elt :=
  Module_ (st_truthy m) (λ x, (st_call m h x).1).

(** [y1 = aug(x); y2 = aug(x)] on one [Augmenter] whose [augment_func] keeps
    state: [forward] calls a truthy [augment_func] exactly once and a falsy
    one never, so the second call finds the hidden state the first one left. *)
Definition Augmenter_twice {elt} `{Dtype elt} (i d : Z)
    (m : stateful_module elt) (h : hidden m) (o : string) (x : tensor elt)
    : result (tensor elt) * result (tensor elt) :=
  let h' := if st_truthy m then (st_call m h x).2 else h in
  (Augmenter.forward (Augmenter.make i d (Some (snapshot m h)) o) x,
   Augmenter.forward (Augmenter.make i d (Some (snapshot m h')) o) x).

(** [y1 = dc(x); y2 = dc(x)] on one [DepthCat]: the second call runs on the
    instance the first one left. *)
Definition DepthCat_twice {elt} `{Dtype elt} (self : DepthCat.t elt)
    (x : tensor elt) : result (tensor elt) * (DepthCat.t elt * result (tensor elt)) :=
  let first := DepthCat.forward self x in
  (first.2, DepthCat.forward first.1 x).

(** ** Sample values *)

Definition row (l : list Z) : nd Z := Node (Leaf <$> l).

Definition matrix (l : list (list Z)) : tensor Z :=
  Tensor [length l; default 0 (length <$> head l)] (Node (row <$> l)).

Definition vector (l : list Z) : tensor Z := Tensor [length l] (row l).

(** [[1, 2, 3], [4, 5, 6]] *)
Definition x_2x3 : tensor Z := matrix [[1; 2; 3]; [4; 5; 6]]%Z.
(** [[7, 8], [9, 10]] *)
Definition u_2x2 : tensor Z := matrix [[7; 8]; [9; 10]]%Z.
(** [[1, 2]] *)
Definition x_1x2 : tensor Z := matrix [[1; 2]]%Z.
(** [[5, 6]] *)
Definition y_1x2 : tensor Z := matrix [[5; 6]]%Z.
(** [1, 2] *)
Definition x_2 : tensor Z := vector [1; 2]%Z.

(** [[1, 2], [3, 4], [5, 6]] *)
Definition x_3x2 : tensor Z := matrix [[1; 2]; [3; 4]; [5; 6]]%Z.
(** [[10], [20]] *)
Definition column_2x1 : tensor Z := matrix [[10]; [20]]%Z.
(** [[[3]]] *)
Definition s_1x1x1 : tensor Z := Tensor [1; 1; 1] (Node [Node [row [3%Z]]]).
(** [[[3], [3]]] *)
Definition s_1x2x1 : tensor Z :=
  Tensor [1; 2; 1] (Node [Node [row [3%Z]; row [3%Z]]]).
(** [[[1, 2], [3, 4]]] *)
Definition x_1x2x2 : tensor Z :=
  Tensor [1; 2; 2] (Node [Node [row [1; 2]; row [3; 4]]%Z]).
(** [[[5, 6]]] *)
Definition u_1x1x2 : tensor Z := Tensor [1; 1; 2] (Node [Node [row [5; 6]%Z]]).

(** A module that returns [[1, 2, 3], [4, 5, 6]] whatever it is given. *)
Definition constant_2x3 : module Z := Module_ true (λ _, Ok x_2x3).

(** A module that counts its calls and scales its input by the count:
    [self.n += 1; return x * self.n], the count before the call being the
    hidden state. *)
Definition counting : stateful_module Z :=
  Stateful Z true (λ n x, (Ok (tmap (Z.mul (n + 1)) x), (n + 1)%Z)).

(** The tensor without axes holding 3. *)
Definition s_0dim : tensor Z := Tensor [] (Leaf 3%Z).

(** A module without state of its own that doubles every entry. *)
Definition doubling_stateless : stateful_module Z :=
  Stateful unit true (λ h x, (Ok (tmap (Z.mul 2) x), h)).

(** [nn.Sequential()]: no layers, so calling it returns its argument and
    its length, hence its truth value, is zero. *)
Definition empty_sequential : module Z := Module_ false (λ x, Ok x).

(** A module without [__len__] whose forward doubles every entry. *)
Definition doubling : module Z := Module_ true (λ x, Ok (tmap (Z.mul 2) x)).

(** * The integers as a dtype *)

#[global] Instance Z_dtype_unit : DtypeUnit Z.
Proof. split; intros v; simpl; lia. Qed.

(** * Facts about nested arrays *)

Section NestedArrayFacts.
Context {A : Type}.
Implicit Types (d a b : nd A) (sh sa sb : list nat) (l la lb : list (nd A)).

Lemma conformsb_nil d : conformsb [] d ↔ ∃ v, d = Leaf v.
Proof.
  destruct d; simpl; split; try done; eauto.
  by intros [? ?].
Qed.

Lemma conformsb_cons n sh d :
  conformsb (n :: sh) d ↔
  ∃ l, d = Node l ∧ length l = n ∧ Forall (λ c, conformsb sh c) l.
Proof.
  destruct d as [v|l]; simpl.
  - split; [done | by intros (? & ? & _)].
  - rewrite andb_True, bool_decide_spec, forallb_True. split.
    + intros [? ?]. eauto.
    + intros (l' & [= <-] & ? & ?). done.
Qed.

Lemma conformsb_node n sh l :
  conformsb (n :: sh) (Node l) ↔ length l = n ∧ Forall (λ c, conformsb sh c) l.
Proof.
  rewrite conformsb_cons. split.
  - intros (l' & [= <-] & ? & ?). done.
  - intros [? ?]. eauto.
Qed.

Lemma Forall_zip_with_both {B C D} (f : B → C → D)
    (P : B → Prop) (Q : C → Prop) (R : D → Prop) (lb : list B) (lc : list C) :
  (∀ x y, P x → Q y → R (f x y)) →
  Forall P lb → Forall Q lc → Forall R (zip_with f lb lc).
Proof.
  intros Hf Hb. revert lc.
  induction Hb as [|x lb Hx _ IH]; intros lc Hc; simpl; [constructor|].
  destruct Hc as [|y lc Hy Hc]; constructor; auto.
Qed.

Lemma conformsb_full (v : A) sh : conformsb sh (full_data v sh).
Proof.
  induction sh as [|n sh IH]; simpl; [done|].
  rewrite andb_True, bool_decide_spec, forallb_True. split.
  - by rewrite length_replicate.
  - by apply Forall_replicate.
Qed.

Lemma wf_full (v : A) sh : wf (full v sh).
Proof. apply conformsb_full. Qed.

(** Overwriting axis [k] with the same value makes two shapes equal exactly
    when they agree away from [k]. *)
Lemma insert_eq_cons_0 (n m x : nat) sa sb :
  <[0 := x]> (n :: sa) = <[0 := x]> (m :: sb) → sa = sb.
Proof. simpl. congruence. Qed.

Lemma insert_eq_cons_S k (n m x : nat) sa sb :
  <[S k := x]> (n :: sa) = <[S k := x]> (m :: sb) →
  n = m ∧ <[k := x]> sa = <[k := x]> sb.
Proof. simpl. intros [= -> ?]. done. Qed.

Lemma conformsb_cat k sa sb a b :
  k < length sa →
  <[k := 0]> sa = <[k := 0]> sb →
  conformsb sa a → conformsb sb b →
  conformsb (<[k := default 0 (sa !! k) + default 0 (sb !! k)]> sa)
            (cat_data k a b).
Proof.
  revert sa sb a b. induction k as [|k IH]; intros sa sb a b Hk Hsh Ha Hb.
  - destruct sa as [|n sa]; [simpl in Hk; lia|].
    destruct sb as [|m sb]; [done|].
    apply insert_eq_cons_0 in Hsh as <-.
    apply conformsb_cons in Ha as (la & -> & Hla & Fa).
    apply conformsb_cons in Hb as (lb & -> & Hlb & Fb).
    simpl. apply conformsb_node. split.
    + rewrite length_app. lia.
    + apply Forall_app. done.
  - destruct sa as [|n sa]; [simpl in Hk; lia|].
    destruct sb as [|m sb]; [done|].
    apply insert_eq_cons_S in Hsh as [<- Hsh].
    apply conformsb_cons in Ha as (la & -> & Hla & Fa).
    apply conformsb_cons in Hb as (lb & -> & Hlb & Fb).
    simpl in Hk. simpl. apply conformsb_node. split.
    + rewrite length_zip_with. lia.
    + eapply Forall_zip_with_both; [|exact Fa|exact Fb].
      intros x y Hx Hy. simpl in Hx, Hy. apply (IH sa sb); [lia|done..].
Qed.

Lemma narrow_cat_l k sa sb a b :
  k < length sa →
  <[k := 0]> sa = <[k := 0]> sb →
  conformsb sa a → conformsb sb b →
  narrow_data k 0 (default 0 (sa !! k)) (cat_data k a b) = a.
Proof.
  revert sa sb a b. induction k as [|k IH]; intros sa sb a b Hk Hsh Ha Hb.
  - destruct sa as [|n sa]; [simpl in Hk; lia|].
    destruct sb as [|m sb]; [done|].
    apply conformsb_cons in Ha as (la & -> & Hla & Fa).
    apply conformsb_cons in Hb as (lb & -> & Hlb & Fb).
    simpl. f_equal. rewrite drop_0. rewrite take_app_length'; done.
  - destruct sa as [|n sa]; [simpl in Hk; lia|].
    destruct sb as [|m sb]; [done|].
    apply insert_eq_cons_S in Hsh as [<- Hsh].
    apply conformsb_cons in Ha as (la & -> & Hla & Fa).
    apply conformsb_cons in Hb as (lb & -> & Hlb & Fb).
    simpl in Hk. simpl. f_equal.
    assert (Hlen : length la = length lb) by congruence.
    clear Hla Hlb. revert lb Fb Hlen.
    induction Fa as [|x la Hx _ IHl]; intros [|y lb] Fb Hlen;
      simpl in *; try done.
    apply Forall_cons in Fb as [Hy Fb]. f_equal.
    + apply (IH sa sb); [lia|done..].
    + apply IHl; [done|lia].
Qed.

Lemma narrow_cat_r k sa sb a b :
  k < length sa →
  <[k := 0]> sa = <[k := 0]> sb →
  conformsb sa a → conformsb sb b →
  narrow_data k (default 0 (sa !! k)) (default 0 (sb !! k)) (cat_data k a b)
  = b.
Proof.
  revert sa sb a b. induction k as [|k IH]; intros sa sb a b Hk Hsh Ha Hb.
  - destruct sa as [|n sa]; [simpl in Hk; lia|].
    destruct sb as [|m sb]; [done|].
    apply conformsb_cons in Ha as (la & -> & Hla & Fa).
    apply conformsb_cons in Hb as (lb & -> & Hlb & Fb).
    simpl. f_equal. rewrite drop_app_length'; [|done].
    apply take_ge. lia.
  - destruct sa as [|n sa]; [simpl in Hk; lia|].
    destruct sb as [|m sb]; [done|].
    apply insert_eq_cons_S in Hsh as [<- Hsh].
    apply conformsb_cons in Ha as (la & -> & Hla & Fa).
    apply conformsb_cons in Hb as (lb & -> & Hlb & Fb).
    simpl in Hk. simpl. f_equal.
    assert (Hlen : length la = length lb) by congruence.
    clear Hla Hlb. revert lb Fb Hlen.
    induction Fa as [|x la Hx _ IHl]; intros [|y lb] Fb Hlen;
      simpl in *; try done.
    apply Forall_cons in Fb as [Hy Fb]. f_equal.
    + apply (IH sa sb); [lia|done..].
    + apply IHl; [done|lia].
Qed.

(** Entries of a concatenation: before the seam they are those of [a],
    from the seam on those of [b]. *)
Lemma item_cat_l k sa sb a b (idx : list nat) (j : nat) :
  k < length sa →
  <[k := 0]> sa = <[k := 0]> sb →
  conformsb sa a → conformsb sb b →
  idx !! k = Some j → j < default 0 (sa !! k) →
  item_data idx (cat_data k a b) = item_data idx a.
Proof.
  revert sa sb a b idx.
  induction k as [|k IH]; intros sa sb a b idx Hk Hsh Ha Hb Hj Hlt.
  - destruct sa as [|n sa]; [simpl in Hk; lia|].
    destruct sb as [|m sb]; [done|].
    apply conformsb_cons in Ha as (la & -> & Hla & Fa).
    apply conformsb_cons in Hb as (lb & -> & Hlb & Fb).
    destruct idx as [|i idx]; [done|]. simpl in *. injection Hj as ->.
    rewrite lookup_app_l by lia. done.
  - destruct sa as [|n sa]; [simpl in Hk; lia|].
    destruct sb as [|m sb]; [done|].
    apply insert_eq_cons_S in Hsh as [<- Hsh].
    apply conformsb_cons in Ha as (la & -> & Hla & Fa).
    apply conformsb_cons in Hb as (lb & -> & Hlb & Fb).
    destruct idx as [|i idx]; [done|]. simpl in *.
    rewrite lookup_zip_with.
    destruct (la !! i) as [x|] eqn:Ex; simpl; [|done].
    destruct (lookup_lt_is_Some_2 lb i) as [y Ey].
    { apply lookup_lt_Some in Ex. lia. }
    rewrite Ey. simpl.
    apply (IH sa sb); try done; [lia|..].
    + by apply (Forall_lookup_1 _ _ _ _ Fa Ex).
    + by apply (Forall_lookup_1 _ _ _ _ Fb Ey).
Qed.

Lemma item_cat_r k sa sb a b (idx : list nat) (j : nat) :
  k < length sa →
  <[k := 0]> sa = <[k := 0]> sb →
  conformsb sa a → conformsb sb b →
  idx !! k = Some j → default 0 (sa !! k) ≤ j →
  item_data idx (cat_data k a b)
  = item_data (<[k := j - default 0 (sa !! k)]> idx) b.
Proof.
  revert sa sb a b idx.
  induction k as [|k IH]; intros sa sb a b idx Hk Hsh Ha Hb Hj Hle.
  - destruct sa as [|n sa]; [simpl in Hk; lia|].
    destruct sb as [|m sb]; [done|].
    apply conformsb_cons in Ha as (la & -> & Hla & Fa).
    apply conformsb_cons in Hb as (lb & -> & Hlb & Fb).
    destruct idx as [|i idx]; [done|]. simpl in *. injection Hj as ->.
    rewrite lookup_app_r by lia. by rewrite Hla.
  - destruct sa as [|n sa]; [simpl in Hk; lia|].
    destruct sb as [|m sb]; [done|].
    apply insert_eq_cons_S in Hsh as [<- Hsh].
    apply conformsb_cons in Ha as (la & -> & Hla & Fa).
    apply conformsb_cons in Hb as (lb & -> & Hlb & Fb).
    destruct idx as [|i idx]; [done|]. simpl in *.
    rewrite lookup_zip_with.
    destruct (lb !! i) as [y|] eqn:Ey; simpl.
    + destruct (lookup_lt_is_Some_2 la i) as [x Ex].
      { apply lookup_lt_Some in Ey. lia. }
      rewrite Ex. simpl.
      apply (IH sa sb); try done; [lia|..].
      * by apply (Forall_lookup_1 _ _ _ _ Fa Ex).
      * by apply (Forall_lookup_1 _ _ _ _ Fb Ey).
    + destruct (la !! i); done.
Qed.

(** Every entry of a constant tensor is the constant. *)
Lemma item_full (v : A) sh (idx : list nat) :
  Forall2 lt idx sh → item_data idx (full_data v sh) = Some v.
Proof.
  intros Hi. induction Hi as [|i n idx sh Hlt _ IH]; simpl; [done|].
  rewrite lookup_replicate_2 by done. done.
Qed.

End NestedArrayFacts.

(** * Facts about the tensor framework *)

Lemma py_index_lt len i k : py_index len i = Some k → k < len.
Proof.
  unfold py_index. repeat case_bool_decide; intros [= <-]; lia.
Qed.

Lemma py_index_nonneg len (k : nat) : k < len → py_index len (Z.of_nat k) = Some k.
Proof.
  intros Hk. unfold py_index. rewrite bool_decide_true by lia.
  by rewrite Nat2Z.id.
Qed.

Lemma py_index_neg len (k : nat) :
  k < len → py_index len (Z.of_nat k - Z.of_nat len) = Some k.
Proof.
  intros Hk. unfold py_index.
  rewrite bool_decide_false by lia. rewrite bool_decide_true by lia.
  f_equal. lia.
Qed.

Section TorchFacts.
Context {elt : Type} `{Dtype elt}.
Implicit Types (a b x t : tensor elt).

Lemma agree_off_insert (k n : nat) (sa sb : list nat) :
  <[k := 0]> sa = <[k := 0]> sb → <[k := n]> sa = <[k := n]> sb.
Proof.
  intros E. rewrite <-(list_insert_insert_eq sa k n 0).
  rewrite <-(list_insert_insert_eq sb k n 0). by rewrite E.
Qed.

Lemma agree_off_length (k : nat) (sa sb : list nat) :
  <[k := 0]> sa = <[k := 0]> sb → length sa = length sb.
Proof.
  intros E. apply (f_equal length) in E. by rewrite !length_insert in E.
Qed.

(** torch.cat on two tensors that both have axes. *)
Lemma torch_cat_axes a b dim :
  shape a ≠ [] → shape b ≠ [] →
  torch_cat a b dim
  = if cat_skips a && cat_skips b then Ok (Tensor [0] (Node []))
    else
      k ← wrap_dim OpCat (length (shape (if cat_skips a then b else a))) dim;
      if cat_skips a then Ok b
      else if cat_skips b then Ok a
      else if agree_off k (shape a) (shape b)
      then Ok (cat_axis a b k)
      else Raise (RuntimeError OpCat).
Proof.
  intros Ha Hb. unfold torch_cat.
  rewrite (bool_decide_false (shape a = [])) by done.
  by rewrite (bool_decide_false (shape b = [])) by done.
Qed.

(** On two well-formed tensors that agree away from the axis, torch.cat
    returns the concatenation, the legacy rule for 1-D empty tensors
    included. *)
Lemma torch_cat_ok a b dim k :
  wf a → wf b →
  py_index (length (shape a)) dim = Some k →
  <[k := 0]> (shape a) = <[k := 0]> (shape b) →
  torch_cat a b dim = Ok (cat_axis a b k).
Proof.
  intros Ha Hb Hdim Hsh.
  pose proof (py_index_lt _ _ _ Hdim) as Hk.
  pose proof (agree_off_length _ _ _ Hsh) as Hlen.
  rewrite torch_cat_axes
    by (intros E; rewrite E in *; simpl in *; lia).
  destruct a as [sa da], b as [sb db]. unfold wf in *. simpl in *.
  unfold cat_skips, cat_axis, size. simpl.
  destruct (decide (sa = [0])) as [->|Hsa].
  - destruct sb as [|m [|? ?]]; try done.
    destruct k as [|k]; [|simpl in Hk; lia].
    destruct da as [?|la]; [done|]. apply conformsb_node in Ha as [Hla _].
    apply nil_length_inv in Hla as ->.
    destruct db as [?|lb]; [done|].
    rewrite bool_decide_true by done. simpl.
    case_bool_decide as Hm; simpl.
    + injection Hm as ->. apply conformsb_node in Hb as [Hlb _].
      apply nil_length_inv in Hlb as ->. done.
    + unfold wrap_dim. simpl in Hdim. rewrite Hdim. done.
  - rewrite bool_decide_false by done. simpl.
    unfold wrap_dim. rewrite Hdim. simpl.
    case_bool_decide as Hsb.
    + subst sb. destruct sa as [|n [|? ?]]; try done.
      destruct k as [|k]; [|simpl in Hk; lia].
      destruct da as [?|la]; [done|]. destruct db as [?|lb]; [done|].
      apply conformsb_node in Hb as [Hlb _].
      apply nil_length_inv in Hlb as ->.
      simpl. rewrite app_nil_r, Nat.add_0_r. done.
    + unfold agree_off. rewrite bool_decide_true by done. done.
Qed.

Lemma wf_cat_axis a b k :
  wf a → wf b → k < length (shape a) →
  <[k := 0]> (shape a) = <[k := 0]> (shape b) →
  wf (cat_axis a b k).
Proof. intros. by apply conformsb_cat. Qed.

Lemma narrow_cat_axis_l a b k :
  wf a → wf b → k < length (shape a) →
  <[k := 0]> (shape a) = <[k := 0]> (shape b) →
  narrow (cat_axis a b k) k 0 (size a k) = a.
Proof.
  intros Ha Hb Hk Hsh. destruct a as [sa da], b as [sb db].
  unfold narrow, cat_axis, size in *. simpl in *. f_equal.
  - rewrite list_insert_insert_eq. apply list_insert_id.
    destruct (lookup_lt_is_Some_2 sa k Hk) as [n ->]. done.
  - by apply (narrow_cat_l k sa sb).
Qed.

Lemma narrow_cat_axis_r a b k :
  wf a → wf b → k < length (shape a) →
  <[k := 0]> (shape a) = <[k := 0]> (shape b) →
  narrow (cat_axis a b k) k (size a k) (size b k) = b.
Proof.
  intros Ha Hb Hk Hsh. destruct a as [sa da], b as [sb db].
  unfold narrow, cat_axis, size in *. simpl in *. f_equal.
  - rewrite list_insert_insert_eq.
    rewrite (agree_off_insert _ _ _ _ Hsh). apply list_insert_id.
    assert (Hk' : k < length sb) by (by rewrite <-(agree_off_length _ _ _ Hsh)).
    destruct (lookup_lt_is_Some_2 sb k Hk') as [n ->]. done.
  - by apply (narrow_cat_r k sa sb).
Qed.

End TorchFacts.

Section ForwardFacts.
Context {elt : Type} `{Dtype elt}.
Implicit Types (a b x t : tensor elt).

Lemma map_data_full (f : elt → elt) (v : elt) sh :
  map_data f (full_data v sh) = full_data (f v) sh.
Proof.
  induction sh as [|n sh IH]; simpl; [done|].
  f_equal. change (map ?g ?l) with (g <$> l).
  by rewrite fmap_replicate, IH.
Qed.

Lemma tmap_full (f : elt → elt) (v : elt) sh :
  tmap f (full v sh) = full (f v) sh.
Proof. unfold tmap, full. simpl. by rewrite map_data_full. Qed.

(** [torch.zeros] / [torch.ones] on a list of sizes. *)
Lemma torch_full_sizes op (v : elt) (sh : list nat) :
  torch_full op v (Z.of_nat <$> sh) = Ok (full v sh).
Proof.
  unfold torch_full.
  assert (forallb (λ n, bool_decide (0 ≤ n)%Z) (Z.of_nat <$> sh) = true) as ->.
  { apply forallb_forall. intros n Hn. apply bool_decide_eq_true.
    apply list_elem_of_In, list_elem_of_fmap in Hn as (m & -> & _). lia. }
  do 2 f_equal. rewrite <-list_fmap_compose.
  rewrite <-(list_fmap_id sh) at 2. apply list_fmap_ext.
  intros _ m _. simpl. lia.
Qed.

(** [dims = list(x.shape); dims[i] = n] for a size [n]. *)
Lemma py_setitem_shape x (i : Z) (k n : nat) :
  py_index (length (shape x)) i = Some k →
  py_setitem (shape_list x) i (Z.of_nat n)
  = Ok (Z.of_nat <$> <[k := n]> (shape x)).
Proof.
  intros Hi. unfold py_setitem, shape_list.
  rewrite length_fmap, Hi. by rewrite list_fmap_insert.
Qed.

Lemma py_setitem_shape_error x (i v : Z) :
  py_index (length (shape x)) i = None →
  py_setitem (shape_list x) i v = Raise (IndexError OpSetItem).
Proof.
  intros Hi. unfold py_setitem, shape_list. by rewrite length_fmap, Hi.
Qed.

Lemma agree_off_resized (k n : nat) (sh : list nat) :
  <[k := 0]> (<[k := n]> sh) = <[k := 0]> sh.
Proof. apply list_insert_insert_eq. Qed.

Lemma size_full_resized (v : elt) x (k n : nat) :
  k < length (shape x) → size (full v (<[k := n]> (shape x))) k = n.
Proof.
  intros Hk. unfold size, full. simpl.
  by rewrite list_lookup_insert_eq.
Qed.

End ForwardFacts.

(** * DataControl *)

Section DataControlSpec.
Context {elt : Type} `{Dtype elt}.

(** C4. With [u] a tensor of shape (B, K), [DataControl.forward] on a tensor
    [x] of shape (B, C) returns [x] followed by [u] along axis 1: a tensor of
    shape (B, C + K) whose first C columns are [x] and whose last K columns
    are [u]. *)
Theorem DataControl_forward_cat (x c : tensor elt) (B C K : nat) :
  wf x → wf c → shape x = [B; C] → shape c = [B; K] →
  ∃ y, DataControl.forward (DataControl.make (Some c)) x = Ok y
       ∧ y = cat_axis x c 1
       ∧ wf y
       ∧ shape y = [B; C + K]
       ∧ narrow y 1 0 C = x
       ∧ narrow y 1 C K = c
       ∧ (∀ i j, j < C → item y [i; j] = item x [i; j])
       ∧ (∀ i j, C ≤ j → item y [i; j] = item c [i; j - C]).
Proof.
  intros Hx Hc Sx Sc.
  assert (Hk : 1 < length (shape x)) by (rewrite Sx; simpl; lia).
  assert (Hsh : <[1 := 0]> (shape x) = <[1 := 0]> (shape c))
    by (by rewrite Sx, Sc).
  assert (Hdim : py_index (length (shape x)) 1 = Some 1) by (by rewrite Sx).
  exists (cat_axis x c 1). unfold DataControl.forward. simpl.
  rewrite (torch_cat_ok x c 1 1 Hx Hc Hdim Hsh).
  assert (Ex : size x 1 = C) by (unfold size; by rewrite Sx).
  assert (Ec : size c 1 = K) by (unfold size; by rewrite Sc).
  repeat split.
  - by apply wf_cat_axis.
  - unfold cat_axis. simpl. by rewrite Ex, Ec, Sx.
  - rewrite <-Ex. by apply narrow_cat_axis_l.
  - rewrite <-Ex, <-Ec. by apply narrow_cat_axis_r.
  - intros i j Hj. unfold item, cat_axis. cbn [data].
    apply (item_cat_l 1 (shape x) (shape c) _ _ [i; j] j); try done.
    unfold size in Ex. by rewrite Ex.
  - intros i j Hj. unfold item, cat_axis. cbn [data]. unfold size in Ex.
    rewrite (item_cat_r 1 (shape x) (shape c) _ _ [i; j] j); try done.
    + by rewrite Ex.
    + by rewrite Ex.
Qed.

End DataControlSpec.

Lemma DataControl_forward_cat_witness :
  ∃ y, DataControl.forward (DataControl.make (Some u_2x2)) x_2x3 = Ok y
       ∧ y = cat_axis x_2x3 u_2x2 1
       ∧ wf y
       ∧ shape y = [2; 3 + 2]
       ∧ narrow y 1 0 3 = x_2x3
       ∧ narrow y 1 3 2 = u_2x2
       ∧ (∀ i j, j < 3 → item y [i; j] = item x_2x3 [i; j])
       ∧ (∀ i j, 3 ≤ j → item y [i; j] = item u_2x2 [i; j - 3]).
Proof.
  apply (DataControl_forward_cat x_2x3 u_2x2 2 3 2); reflexivity || exact I.
Defined.

(** * DepthCat *)

Section DepthCatFacts.
Context {elt : Type} `{Dtype elt}.
Implicit Types (a b x t : tensor elt) (d : nd elt).

Lemma broadcast_rev_diag (l : list nat) : broadcast_rev l l = Some l.
Proof.
  induction l as [|n l IH]; simpl; [done|].
  rewrite bool_decide_true by done. by rewrite IH.
Qed.

Lemma broadcast_shapes_diag (sh : list nat) : broadcast_shapes sh sh = Some sh.
Proof.
  unfold broadcast_shapes. rewrite broadcast_rev_diag. simpl.
  by rewrite reverse_involutive.
Qed.

Lemma expand_data_diag sh d : conformsb sh d → expand_data sh sh d = d.
Proof.
  revert d. induction sh as [|n sh IH]; intros d Hd; simpl; [done|].
  apply conformsb_cons in Hd as (l & -> & _ & Fl).
  rewrite bool_decide_true by done. simpl. f_equal.
  rewrite <-(list_fmap_id l) at 2. apply Forall_fmap_ext_1.
  eapply Forall_impl; [exact Fl|]. intros c Hc. by apply IH.
Qed.

Lemma expand_to_same t : wf t → expand_to (shape t) t = data t.
Proof.
  intros Ht. unfold expand_to. rewrite Nat.sub_diag. simpl.
  by apply expand_data_diag.
Qed.

(** Multiplying entrywise by ones changes nothing. *)
Lemma zip_data_ones_r `{!DtypeUnit elt} sh d :
  conformsb sh d → zip_data elt_mul d (full_data elt_one sh) = d.
Proof.
  revert d. induction sh as [|n sh IH]; intros d Hd.
  - apply conformsb_nil in Hd as [v ->]. simpl. by rewrite elt_mul_1_r.
  - apply conformsb_cons in Hd as (l & -> & Hl & Fl). simpl. f_equal.
    rewrite zip_with_replicate_r_eq by done.
    rewrite <-(list_fmap_id l) at 2. apply Forall_fmap_ext_1.
    eapply Forall_impl; [exact Fl|]. intros c Hc. by apply IH.
Qed.

Lemma torch_mul_ones_r `{!DtypeUnit elt} t :
  wf t → torch_mul t (full elt_one (shape t)) = Ok t.
Proof.
  intros Ht. unfold torch_mul. simpl. rewrite broadcast_shapes_diag.
  rewrite expand_to_same by done.
  rewrite (expand_to_same (full elt_one (shape t))) by apply wf_full.
  simpl. rewrite zip_data_ones_r by done. by destruct t.
Qed.

(** A tensor without axes broadcasts to the constant tensor. *)
Lemma expand_data_scalar (v : elt) sh :
  expand_data (replicate (length sh) 1) sh
              (unsqueeze_data (length sh) (Leaf v))
  = full_data v sh.
Proof.
  induction sh as [|m sh IH]; [done|].
  cbn [length replicate unsqueeze_data Nat.iter expand_data full_data].
  fold (unsqueeze_data (length sh) (Leaf v)).
  case_bool_decide as Hm.
  - subst m. simpl. by rewrite IH.
  - simpl. by rewrite IH.
Qed.

Lemma torch_mul_scalar_ones `{!DtypeUnit elt} (v : elt) sh :
  torch_mul (Tensor [] (Leaf v)) (full elt_one sh) = Ok (full v sh).
Proof.
  unfold torch_mul, broadcast_shapes. simpl. rewrite reverse_involutive.
  simpl. unfold full. do 2 f_equal.
  pose proof (expand_to_same (full elt_one sh) (wf_full _ _)) as E.
  unfold full in E. simpl in E. rewrite E. clear E.
  unfold expand_to. simpl. rewrite Nat.sub_0_r, app_nil_r.
  rewrite expand_data_scalar.
  apply zip_data_ones_r, conformsb_full.
Qed.

(** [s * ones] for a scalar [s]. *)
Lemma py_mul_scalar_ones `{!DtypeUnit elt} (v : elt) (d : DepthCat.depth elt) sh :
  scalar_depth v d →
  DepthCat.py_mul (Some d) (full elt_one sh) = Ok (full v sh).
Proof.
  intros [-> | ->]; simpl.
  - by rewrite tmap_full, elt_mul_1_l.
  - apply torch_mul_scalar_ones.
Qed.

Lemma depth_block_agree v x k :
  <[k := 0]> (shape x) = <[k := 0]> (shape (depth_block v x k)).
Proof. unfold depth_block. simpl. by rewrite agree_off_resized. Qed.

(** [forward] with [s] a scalar. *)
Lemma DepthCat_forward_scalar `{!DtypeUnit elt} (self : DepthCat.t elt) x
    (v : elt) (d : DepthCat.depth elt) k :
  wf x →
  py_index (length (shape x)) (DepthCat.idx_cat self) = Some k →
  DepthCat.s self = Some d → scalar_depth v d →
  DepthCat.forward self x
  = (DepthCat.set_s self (Some (DepthCat.Tens (depth_block v x k))),
     Ok (cat_axis x (depth_block v x k) k)).
Proof.
  intros Hx Hi Hs Hd. unfold DepthCat.forward.
  pose proof (py_setitem_shape x _ k 1 Hi) as E.
  change (Z.of_nat 1) with 1%Z in E. rewrite E. simpl.
  unfold torch_ones. rewrite torch_full_sizes. simpl.
  rewrite Hs. unfold to. rewrite (py_mul_scalar_ones v d _ Hd).
  fold (depth_block v x k). cbn [fmap result_fmap].
  rewrite (torch_cat_ok x (depth_block v x k) _ k); try done.
  - apply wf_full.
  - apply depth_block_agree.
Qed.

(** [forward] with [s] a tensor that already has the shape of the block. *)
Lemma DepthCat_forward_tensor `{!DtypeUnit elt} (self : DepthCat.t elt) x t k :
  wf x → wf t →
  py_index (length (shape x)) (DepthCat.idx_cat self) = Some k →
  shape t = <[k := 1]> (shape x) →
  DepthCat.s self = Some (DepthCat.Tens t) →
  DepthCat.forward self x = (self, Ok (cat_axis x t k)).
Proof.
  intros Hx Ht Hi St Hs. unfold DepthCat.forward.
  pose proof (py_setitem_shape x _ k 1 Hi) as E.
  change (Z.of_nat 1) with 1%Z in E. rewrite E. simpl.
  unfold torch_ones. rewrite torch_full_sizes. simpl.
  rewrite Hs. simpl. unfold to. rewrite <-St.
  rewrite torch_mul_ones_r by done.
  rewrite (torch_cat_ok x t _ k); try done.
  - simpl. f_equal. destruct self as [i s0]. simpl in *. by rewrite Hs.
  - by rewrite St, agree_off_resized.
Qed.

End DepthCatFacts.

Section DepthCatSpec.
Context {elt : Type} `{Dtype elt} `{!DtypeUnit elt}.
Implicit Types (x t : tensor elt) (self : DepthCat.t elt).

(** C1. For [DepthCat] with [idx_cat = 1] and [s] a scalar [v], [forward] on a
    tensor [x] of shape (B, C) returns a tensor of shape (B, C + 1): [x]
    followed along axis 1 by the ones-tensor of shape (B, 1) times [v]; its
    first C columns are [x] and its appended column is [v] in every row. *)
Theorem DepthCat_forward_appends_depth x (v : elt) (d : DepthCat.depth elt)
    (B C : nat) :
  wf x → shape x = [B; C] → scalar_depth v d →
  ∃ y, (DepthCat.forward (DepthCat.make 1 (Some d)) x).2 = Ok y
       ∧ y = cat_axis x (tmap (λ e, elt_mul e v) (full elt_one [B; 1])) 1
       ∧ wf y
       ∧ shape y = [B; C + 1]
       ∧ narrow y 1 0 C = x
       ∧ narrow y 1 C 1 = full v [B; 1]
       ∧ (∀ i j, j < C → item y [i; j] = item x [i; j])
       ∧ (∀ i, i < B → item y [i; C] = Some v).
Proof.
  intros Hx Sx Hd.
  assert (Hk : 1 < length (shape x)) by (rewrite Sx; simpl; lia).
  assert (Hi : py_index (length (shape x)) 1 = Some 1) by (by rewrite Sx).
  rewrite (DepthCat_forward_scalar
             (DepthCat.make 1 (Some d)) x v d 1 Hx Hi eq_refl Hd).
  simpl.
  assert (Eb : depth_block v x 1 = full v [B; 1])
    by (unfold depth_block; by rewrite Sx).
  rewrite Eb. clear Eb.
  assert (Hsh : <[1 := 0]> (shape x) = <[1 := 0]> (shape (full v [B; 1])))
    by (by rewrite Sx).
  assert (Ex : size x 1 = C) by (unfold size; by rewrite Sx).
  pose proof (wf_full v [B; 1]) as Hb.
  exists (cat_axis x (full v [B; 1]) 1). repeat split.
  - by rewrite tmap_full, elt_mul_1_l.
  - by apply wf_cat_axis.
  - unfold cat_axis, size. simpl. by rewrite Sx.
  - rewrite <-Ex. by apply narrow_cat_axis_l.
  - rewrite <-Ex. by apply (narrow_cat_axis_r x (full v [B; 1]) 1).
  - intros i j Hj. unfold item, cat_axis. cbn [data].
    apply (item_cat_l 1 (shape x) [B; 1] _ _ [i; j] j); try done.
    by rewrite Sx.
  - intros i Hlt. unfold item, cat_axis. cbn [data]. unfold size in Ex.
    rewrite (item_cat_r 1 (shape x) [B; 1] _ _ [i; C] C); try done.
    + rewrite Ex, Nat.sub_diag.
      apply (item_full v [B; 1] [i; 0]). repeat constructor; lia.
    + by rewrite Ex.
Qed.

(** C2, as amended. [forward] never changes [idx_cat], but it assigns to [s]:
    a scalar [v] is replaced by the tensor of [x]'s shape with axis
    [idx_cat] resized to 1 and every entry [v]; a tensor that already has
    that shape keeps its value; an unset [s] stays unset (the call raises
    before the assignment). *)
Theorem DepthCat_forward_overwrites_s self x k :
  wf x →
  py_index (length (shape x)) (DepthCat.idx_cat self) = Some k →
  let self' := (DepthCat.forward self x).1 in
  DepthCat.idx_cat self' = DepthCat.idx_cat self
  ∧ (∀ v d, DepthCat.s self = Some d → scalar_depth v d →
            DepthCat.s self' = Some (DepthCat.Tens (depth_block v x k)))
  ∧ (∀ t, DepthCat.s self = Some (DepthCat.Tens t) →
          wf t → shape t = <[k := 1]> (shape x) →
          DepthCat.s self' = DepthCat.s self)
  ∧ (DepthCat.s self = None → DepthCat.s self' = None).
Proof.
  intros Hx Hi. simpl. repeat split.
  - unfold DepthCat.forward.
    by destruct (_ ≫= _) as [p|e].
  - intros v d Hs Hd. by rewrite (DepthCat_forward_scalar self x v d k).
  - intros t Hs Ht St. by rewrite (DepthCat_forward_tensor self x t k).
  - intros Hs. unfold DepthCat.forward.
    pose proof (py_setitem_shape x _ k 1 Hi) as E.
    change (Z.of_nat 1) with 1%Z in E. rewrite E. simpl.
    unfold torch_ones. rewrite torch_full_sizes. simpl. by rewrite Hs.
Qed.

(** C10, as amended. After one [forward] on [x] with [s] a scalar, a further
    [forward] on any [x'] of the same shape leaves the instance as it is and
    returns what [forward] with [s] still the scalar returns on [x'];
    repeated on [x] itself it returns the first call's result. *)
Theorem DepthCat_forward_update_idempotent self x x' (v : elt) d k :
  wf x → wf x' → shape x' = shape x →
  py_index (length (shape x)) (DepthCat.idx_cat self) = Some k →
  DepthCat.s self = Some d → scalar_depth v d →
  let self1 := (DepthCat.forward self x).1 in
  DepthCat.forward self1 x' = (self1, (DepthCat.forward self x').2)
  ∧ (DepthCat.forward self1 x).2 = (DepthCat.forward self x).2.
Proof.
  intros Hx Hx' Sx Hi Hs Hd.
  rewrite (DepthCat_forward_scalar self x v d k) by done.
  assert (Hi' : py_index (length (shape x')) (DepthCat.idx_cat self) = Some k)
    by (by rewrite Sx).
  rewrite (DepthCat_forward_scalar self x' v d k) by done.
  assert (Eb : depth_block v x' k = depth_block v x k)
    by (unfold depth_block; by rewrite Sx).
  rewrite Eb. simpl. split.
  - apply DepthCat_forward_tensor; try done.
    + apply wf_full.
    + unfold depth_block. simpl. by rewrite Sx.
  - rewrite (DepthCat_forward_tensor _ x (depth_block v x k) k); try done.
    apply wf_full.
Qed.

End DepthCatSpec.

Lemma DepthCat_forward_appends_depth_witness :
  ∃ y, (DepthCat.forward
          (DepthCat.make 1 (Some (DepthCat.Tens (Tensor [] (Leaf 7%Z))))) x_2x3).2
       = Ok y
       ∧ y = cat_axis x_2x3 (tmap (λ e, elt_mul e 7%Z) (full elt_one [2; 1])) 1
       ∧ wf y
       ∧ shape y = [2; 3 + 1]
       ∧ narrow y 1 0 3 = x_2x3
       ∧ narrow y 1 3 1 = full 7%Z [2; 1]
       ∧ (∀ i j, j < 3 → item y [i; j] = item x_2x3 [i; j])
       ∧ (∀ i, i < 2 → item y [i; 3] = Some 7%Z).
Proof.
  apply (DepthCat_forward_appends_depth x_2x3 7%Z
           (DepthCat.Tens (Tensor [] (Leaf 7%Z))) 2 3);
    [exact I | reflexivity | right; reflexivity].
Defined.

(** C2 as stated fails: [forward] turns the scalar 3 stored in [s] into the
    tensor [[3]]. *)
Lemma DepthCat_forward_changes_s :
  let self := DepthCat.make 1 (Some (DepthCat.Scalar 3%Z)) in
  DepthCat.s (DepthCat.forward self x_1x2).1 ≠ DepthCat.s self.
Proof. simpl. discriminate. Qed.

Lemma DepthCat_forward_overwrites_s_witness :
  let self := DepthCat.make 1 (Some (DepthCat.Scalar 3%Z)) in
  let self' := (DepthCat.forward self x_1x2).1 in
  DepthCat.idx_cat self' = DepthCat.idx_cat self
  ∧ (∀ v d, DepthCat.s self = Some d → scalar_depth v d →
            DepthCat.s self' = Some (DepthCat.Tens (depth_block v x_1x2 1)))
  ∧ (∀ t, DepthCat.s self = Some (DepthCat.Tens t) →
          wf t → shape t = <[1 := 1]> (shape x_1x2) →
          DepthCat.s self' = DepthCat.s self)
  ∧ (DepthCat.s self = None → DepthCat.s self' = None).
Proof.
  apply (DepthCat_forward_overwrites_s
           (DepthCat.make 1 (Some (DepthCat.Scalar 3%Z))) x_1x2 1);
    reflexivity || exact I.
Defined.

(** C10 as stated fails: after a call on [[1, 2]] with depth 3, a call on
    [[5, 6]], of the same shape, returns [[5, 6, 3]] and not the first
    call's [[1, 2, 3]]. *)
Lemma DepthCat_forward_second_call_differs :
  let self := DepthCat.make 1 (Some (DepthCat.Scalar 3%Z)) in
  let first := DepthCat.forward self x_1x2 in
  shape y_1x2 = shape x_1x2
  ∧ (DepthCat.forward first.1 y_1x2).2 ≠ first.2.
Proof. simpl. split; [reflexivity | discriminate]. Qed.

Lemma DepthCat_forward_update_idempotent_witness :
  let self := DepthCat.make 1 (Some (DepthCat.Scalar 3%Z)) in
  let self1 := (DepthCat.forward self x_1x2).1 in
  DepthCat.forward self1 y_1x2 = (self1, (DepthCat.forward self y_1x2).2)
  ∧ (DepthCat.forward self1 x_1x2).2 = (DepthCat.forward self x_1x2).2.
Proof.
  apply (DepthCat_forward_update_idempotent
           (DepthCat.make 1 (Some (DepthCat.Scalar 3%Z))) x_1x2 y_1x2 3%Z
           (DepthCat.Scalar 3%Z) 1);
    try (reflexivity || exact I).
  left; reflexivity.
Defined.

Section UnsetFieldSpec.
Context {elt : Type} `{Dtype elt}.

(** C6, as amended. With the field still [None], [forward] raises on every
    input and returns no tensor.  For [DepthCat] the instance is left as it
    was and, when [idx_cat] is an axis of [x], the exception is the type
    error of the product of [None] with the ones-tensor; when it is not,
    the assignment [s_shape[idx_cat] = 1] raises IndexError before the
    product is reached.  For [DataControl] it is the type error of
    [torch.cat]. *)
Theorem unset_field_raises (x : tensor elt) (i : Z) :
  DepthCat.forward (DepthCat.init i) x
  = (DepthCat.init i,
     match py_index (length (shape x)) i with
     | Some _ => Raise (TypeError OpMul)
     | None => Raise (IndexError OpSetItem)
     end)
  ∧ DataControl.forward DataControl.init x = Raise (TypeError OpCat).
Proof.
  split; [|done]. unfold DepthCat.forward.
  destruct (py_index (length (shape x)) i) as [k|] eqn:Hi.
  - pose proof (py_setitem_shape x _ k 1 Hi) as E.
    change (Z.of_nat 1) with 1%Z in E. simpl. rewrite E. simpl.
    unfold torch_ones. by rewrite torch_full_sizes.
  - simpl. by rewrite py_setitem_shape_error.
Qed.

End UnsetFieldSpec.

(** C6 as stated fails: on the 1-D tensor [1, 2] a fresh [DepthCat] (with
    [idx_cat = 1]) raises at [s_shape[1] = 1], not at the product. *)
Lemma DepthCat_unset_fails_before_product :
  (DepthCat.forward (DepthCat.init 1) x_2).2 = Raise (IndexError OpSetItem)
  ∧ ¬ fails_at OpMul (DepthCat.forward (DepthCat.init 1) x_2).2.
Proof.
  split; [reflexivity|]. intros (e & E & S).
  simpl in E. injection E as <-. discriminate S.
Qed.

(** * Augmenter *)

Section AugmenterSpec.
Context {elt : Type} `{Dtype elt}.
Implicit Types (x a : tensor elt) (self : Augmenter.t elt).

(** [forward] is its augmentation tensor put before or after [x]. *)
Lemma Augmenter_forward_unfold self x :
  Augmenter.forward self x
  = if String.eqb (Augmenter.order self) "first"
    then a ← augmentation self x; torch_cat a x (Augmenter.augment_idx self)
    else a ← augmentation self x; torch_cat x a (Augmenter.augment_idx self).
Proof.
  unfold Augmenter.forward, augmentation, to.
  destruct (py_truthy _) as [f|]; [done|].
  destruct (py_setitem _ _ _) as [dims|e]; simpl; [done|].
  by destruct (String.eqb _ _).
Qed.

Lemma augmentation_zeros x (i : Z) (d k : nat) o :
  py_index (length (shape x)) i = Some k →
  augmentation (Augmenter.make i (Z.of_nat d) None o) x
  = Ok (full elt_zero (<[k := d]> (shape x))).
Proof.
  intros Hi. unfold augmentation. simpl.
  rewrite (py_setitem_shape x i k d Hi). simpl.
  unfold torch_zeros. by rewrite torch_full_sizes.
Qed.

(** C3. With [augment_func] unset, [augment_dims = d] and [augment_idx]
    naming axis [k] of [x], [forward x] has [x]'s shape with axis [k] grown by
    [d]; for order 'first' its first [d] slices along that axis are zero and
    the rest is [x], for order 'last' its last [d] slices are zero and the
    rest is [x]. *)
Theorem Augmenter_forward_zeros x (i : Z) (d k : nat) (o : string) :
  wf x →
  py_index (length (shape x)) i = Some k →
  let z := full elt_zero (<[k := d]> (shape x)) in
  ∃ y, Augmenter.forward (Augmenter.make i (Z.of_nat d) None o) x = Ok y
       ∧ wf y
       ∧ shape y = <[k := size x k + d]> (shape x)
       ∧ (o = "first" →
            y = cat_axis z x k
            ∧ narrow y k 0 d = z
            ∧ narrow y k d (size x k) = x)
       ∧ (o = "last" →
            y = cat_axis x z k
            ∧ narrow y k 0 (size x k) = x
            ∧ narrow y k (size x k) d = z).
Proof.
  intros Hx Hi z.
  pose proof (py_index_lt _ _ _ Hi) as Hk.
  pose proof (wf_full elt_zero (<[k := d]> (shape x))) as Hz. fold z in Hz.
  assert (Hzx : <[k := 0]> (shape z) = <[k := 0]> (shape x))
    by apply agree_off_resized.
  assert (Hkz : k < length (shape z))
    by (subst z; simpl; by rewrite length_insert).
  assert (Hiz : py_index (length (shape z)) i = Some k)
    by (subst z; simpl; by rewrite length_insert).
  assert (Sz : size z k = d) by (by apply size_full_resized).
  assert (Sfirst : shape (cat_axis z x k) = <[k := size x k + d]> (shape x)).
  { unfold cat_axis. cbn [shape]. rewrite Sz. subst z. cbn [shape full].
    rewrite list_insert_insert_eq. f_equal. lia. }
  assert (Slast : shape (cat_axis x z k) = <[k := size x k + d]> (shape x)).
  { unfold cat_axis. cbn [shape]. by rewrite Sz. }
  rewrite Augmenter_forward_unfold. cbn [Augmenter.order Augmenter.augment_idx].
  rewrite (augmentation_zeros x i d k o Hi). fold z. simpl.
  pose proof (narrow_cat_axis_l z x k Hz Hx Hkz Hzx) as Nzl.
  pose proof (narrow_cat_axis_r z x k Hz Hx Hkz Hzx) as Nzr.
  pose proof (narrow_cat_axis_l x z k Hx Hz Hk (eq_sym Hzx)) as Nxl.
  pose proof (narrow_cat_axis_r x z k Hx Hz Hk (eq_sym Hzx)) as Nxr.
  rewrite Sz in Nzl, Nzr, Nxr.
  destruct (String.eqb_spec o "first") as [->|Hno].
  - rewrite (torch_cat_ok z x i k Hz Hx Hiz Hzx).
    exists (cat_axis z x k). repeat split; try done.
    by apply wf_cat_axis.
  - rewrite (torch_cat_ok x z i k Hx Hz Hi (eq_sym Hzx)).
    exists (cat_axis x z k). repeat split; try done.
    by apply wf_cat_axis.
Qed.

(** X4. A learned augmentation, for a callable that Python counts as true:
    [forward] is [augment_func(x)] and [x] concatenated along the axis, in
    the order [order] asks for. *)
Lemma Augmenter_forward_learned x a (f : module elt) (i d : Z) (k : nat)
    (o : string) :
  wf x → wf a →
  truthy f = true → call f x = Ok a →
  py_index (length (shape x)) i = Some k →
  <[k := 0]> (shape a) = <[k := 0]> (shape x) →
  ∃ y, Augmenter.forward (Augmenter.make i d (Some f) o) x = Ok y
       ∧ y = (if String.eqb o "first" then cat_axis a x k else cat_axis x a k)
       ∧ wf y
       ∧ shape y = <[k := size x k + size a k]> (shape x)
       ∧ (o = "first" →
            narrow y k 0 (size a k) = a ∧ narrow y k (size a k) (size x k) = x)
       ∧ (o = "last" →
            narrow y k 0 (size x k) = x ∧ narrow y k (size x k) (size a k) = a).
Proof.
  intros Hx Ha Hf Hcall Hi Hax.
  pose proof (py_index_lt _ _ _ Hi) as Hk.
  pose proof (agree_off_length _ _ _ Hax) as Hlen.
  assert (Hka : k < length (shape a)) by (by rewrite Hlen).
  assert (Hia : py_index (length (shape a)) i = Some k) by (by rewrite Hlen).
  assert (Sfirst : shape (cat_axis a x k)
                   = <[k := size x k + size a k]> (shape x)).
  { unfold cat_axis. cbn [shape].
    rewrite (agree_off_insert _ _ _ _ Hax). f_equal. lia. }
  rewrite Augmenter_forward_unfold. cbn [Augmenter.order Augmenter.augment_idx].
  unfold augmentation. simpl. rewrite Hf, Hcall. simpl.
  destruct (String.eqb_spec o "first") as [->|Hno].
  - rewrite (torch_cat_ok a x i k Ha Hx Hia Hax).
    exists (cat_axis a x k). repeat split; try done.
    + by apply wf_cat_axis.
    + by apply narrow_cat_axis_l.
    + by apply narrow_cat_axis_r.
  - rewrite (torch_cat_ok x a i k Hx Ha Hi (eq_sym Hax)).
    exists (cat_axis x a k). repeat split; try done.
    + by apply wf_cat_axis.
    + by apply narrow_cat_axis_l.
    + by apply narrow_cat_axis_r.
Qed.

End AugmenterSpec.

Lemma Augmenter_forward_zeros_witness :
  let z := full elt_zero (<[1 := 2]> (shape x_2x3)) in
  ∃ y, Augmenter.forward (Augmenter.make (-1) (Z.of_nat 2) None "last") x_2x3
       = Ok y
       ∧ wf y
       ∧ shape y = <[1 := size x_2x3 1 + 2]> (shape x_2x3)
       ∧ ("last" = "first" →
            y = cat_axis z x_2x3 1
            ∧ narrow y 1 0 2 = z
            ∧ narrow y 1 2 (size x_2x3 1) = x_2x3)
       ∧ ("last" = "last" →
            y = cat_axis x_2x3 z 1
            ∧ narrow y 1 0 (size x_2x3 1) = x_2x3
            ∧ narrow y 1 (size x_2x3 1) 2 = z).
Proof.
  apply (Augmenter_forward_zeros x_2x3 (-1) 2 1 "last"); reflexivity || exact I.
Defined.

(** C5 fails on the code for a callable that Python counts as false.  With
    [augment_func = nn.Sequential()] (the identity, of length 0) and the
    default [augment_dims = 5], [forward] on [[1, 2]] pads five zeros where
    C5 asks for [augment_func(x)] before [x], that is [[1, 2, 1, 2]]. *)
Theorem Augmenter_forward_falsy_func_ignored :
  let self := Augmenter.make 1 5 (Some empty_sequential) "first" in
  call empty_sequential x_1x2 = Ok x_1x2
  ∧ Augmenter.forward self x_1x2 = Ok (matrix [[0; 0; 0; 0; 0; 1; 2]]%Z)
  ∧ Augmenter.forward self x_1x2 ≠ Ok (cat_axis x_1x2 x_1x2 1).
Proof. simpl. repeat split. discriminate. Qed.

(** * SCIPY_SOLVERS *)

(** C8. The table has exactly the six names scipy_LSODA, scipy_RK45,
    scipy_RK23, scipy_DOP853, scipy_BDF and scipy_Radau; each is mapped to
    the record with method 'scipy_solver' and options \{'solver': suffix\},
    the suffix being what follows 'scipy_' in the name. *)
Theorem SCIPY_SOLVERS_table :
  dom SCIPY_SOLVERS
  = list_to_set ["scipy_LSODA"; "scipy_RK45"; "scipy_RK23"; "scipy_DOP853";
                 "scipy_BDF"; "scipy_Radau"]
  ∧ ∀ name cfg,
      SCIPY_SOLVERS !! name = Some cfg →
      ∃ suffix, name = "scipy_" +:+ suffix
                ∧ method cfg = "scipy_solver"
                ∧ options cfg = {["solver" := suffix]}.
Proof.
  split.
  - unfold SCIPY_SOLVERS. rewrite dom_list_to_map_L. done.
  - intros name cfg Hl. unfold SCIPY_SOLVERS in Hl.
    apply elem_of_list_to_map_2 in Hl.
    repeat (apply elem_of_cons in Hl as [[= -> ->]|Hl];
            [eexists; split; [|split]; [|reflexivity..]; reflexivity|]).
    by apply elem_of_nil in Hl.
Qed.

Example SCIPY_SOLVERS_RK45 :
  SCIPY_SOLVERS !! "scipy_RK45" = Some (scipy_entry "RK45").
Proof. reflexivity. Qed.

(** * Further properties of the three modules *)

Section CatAlgebra.
Context {A : Type}.
Implicit Types (a b c : nd A) (sh : list nat).

Lemma zip_with_assoc (f : nd A → nd A → nd A) (l1 l2 l3 : list (nd A)) :
  (∀ x y z, f (f x y) z = f x (f y z)) →
  zip_with f (zip_with f l1 l2) l3 = zip_with f l1 (zip_with f l2 l3).
Proof.
  intros Hf. revert l2 l3.
  induction l1 as [|x l1 IH]; intros [|y l2] [|z l3]; simpl; try done.
  by rewrite Hf, IH.
Qed.

(** Concatenation along an axis is associative. *)
Lemma cat_data_assoc k a b c :
  cat_data k (cat_data k a b) c = cat_data k a (cat_data k b c).
Proof.
  revert a b c. induction k as [|k IH]; intros a b c; simpl.
  - by rewrite app_assoc.
  - f_equal. by apply zip_with_assoc.
Qed.

(** Two constant blocks side by side are one constant block. *)
Lemma cat_data_full (v : A) k sh (n m : nat) :
  k < length sh →
  cat_data k (full_data v (<[k := n]> sh)) (full_data v (<[k := m]> sh))
  = full_data v (<[k := n + m]> sh).
Proof.
  revert sh. induction k as [|k IH]; intros [|p sh] Hk;
    simpl in Hk; try lia; simpl.
  - by rewrite replicate_add.
  - rewrite zip_with_replicate. by rewrite IH by lia.
Qed.

(** A block that is empty along the axis adds nothing. *)
Lemma cat_data_empty_r (v : A) k sh a :
  k < length sh → conformsb sh a →
  cat_data k a (full_data v (<[k := 0]> sh)) = a.
Proof.
  revert sh a. induction k as [|k IH]; intros [|p sh] a Hk Ha;
    simpl in Hk; try lia.
  - apply conformsb_cons in Ha as (l & -> & _ & _). simpl.
    by rewrite app_nil_r.
  - apply conformsb_cons in Ha as (l & -> & Hl & Fl). simpl. f_equal.
    rewrite zip_with_replicate_r_eq by done.
    rewrite <-(list_fmap_id l) at 2. apply Forall_fmap_ext_1.
    eapply Forall_impl; [exact Fl|]. intros c Hc. simpl.
    apply IH; [lia|done].
Qed.

Lemma cat_data_empty_l (v : A) k sh a :
  k < length sh → conformsb sh a →
  cat_data k (full_data v (<[k := 0]> sh)) a = a.
Proof.
  revert sh a. induction k as [|k IH]; intros [|p sh] a Hk Ha;
    simpl in Hk; try lia.
  - by apply conformsb_cons in Ha as (l & -> & _ & _).
  - apply conformsb_cons in Ha as (l & -> & Hl & Fl). simpl. f_equal.
    rewrite zip_with_replicate_l by lia.
    rewrite <-(list_fmap_id l) at 2. apply Forall_fmap_ext_1.
    eapply Forall_impl; [exact Fl|]. intros c Hc. simpl.
    apply IH; [lia|done].
Qed.

End CatAlgebra.

Section AugmenterMore.
Context {elt : Type} `{Dtype elt}.
Implicit Types (x a : tensor elt) (f : option (module elt)).

Lemma torch_full_negative op (v : elt) (dims : list Z) (k : nat) (d : Z) :
  dims !! k = Some d → (d < 0)%Z →
  torch_full op v dims = Raise (RuntimeError op).
Proof.
  intros Hk Hd. unfold torch_full.
  destruct (forallb _ dims) eqn:E; [|done].
  rewrite forallb_forall in E.
  specialize (E d). rewrite bool_decide_eq_true in E.
  assert (0 ≤ d)%Z; [|lia].
  apply E, list_elem_of_In, list_elem_of_lookup. eauto.
Qed.

Lemma zeros_block_facts (d : nat) x k :
  k < rank x →
  wf (zeros_block d x k)
  ∧ <[k := 0]> (shape (zeros_block d x k)) = <[k := 0]> (shape x)
  ∧ rank (zeros_block d x k) = rank x
  ∧ size (zeros_block d x k) k = d.
Proof.
  intros Hk. unfold zeros_block, rank. repeat split.
  - apply wf_full.
  - apply agree_off_resized.
  - simpl. by rewrite length_insert.
  - by apply size_full_resized.
Qed.

(** The padding branch on an axis of [x] and a size [d]. *)
Lemma Augmenter_forward_padding x f (i : Z) (d k : nat) (o : string) :
  wf x → py_truthy f = None →
  py_index (rank x) i = Some k →
  Augmenter.forward (Augmenter.make i (Z.of_nat d) f o) x
  = Ok (if String.eqb o "first"
        then cat_axis (zeros_block d x k) x k
        else cat_axis x (zeros_block d x k) k).
Proof.
  intros Hx Hf Hi. pose proof (py_index_lt _ _ _ Hi) as Hk.
  destruct (zeros_block_facts d x k Hk) as (Hz & Hzx & Hr & _).
  rewrite Augmenter_forward_unfold. unfold augmentation.
  cbn [Augmenter.order Augmenter.augment_idx Augmenter.augment_func
       Augmenter.augment_dims].
  rewrite Hf. rewrite (py_setitem_shape x i k d Hi). simpl.
  unfold torch_zeros. rewrite torch_full_sizes. simpl.
  fold (zeros_block d x k).
  destruct (String.eqb o "first").
  - apply torch_cat_ok; try done. unfold rank in Hr. by rewrite Hr.
  - by apply torch_cat_ok.
Qed.

(** X1. With no (or a falsy) [augment_func], [forward] on a well-formed [x]
    has three outcomes: IndexError from [new_dims[augment_idx] = ...] when
    [augment_idx] is not an axis of [x]; otherwise RuntimeError from
    [torch.zeros] when [augment_dims] is negative; otherwise the zero block
    and [x] concatenated in the order asked for. *)
Theorem Augmenter_forward_unset_cases x f (i d : Z) (o : string) :
  wf x → py_truthy f = None →
  Augmenter.forward (Augmenter.make i d f o) x
  = match py_index (rank x) i with
    | None => Raise (IndexError OpSetItem)
    | Some k =>
        if bool_decide (d < 0)%Z then Raise (RuntimeError OpZeros)
        else Ok (if String.eqb o "first"
                 then cat_axis (zeros_block (Z.to_nat d) x k) x k
                 else cat_axis x (zeros_block (Z.to_nat d) x k) k)
    end.
Proof.
  intros Hx Hf. destruct (py_index (rank x) i) as [k|] eqn:Hi.
  - case_bool_decide as Hd.
    + pose proof (py_index_lt _ _ _ Hi) as Hk.
      rewrite Augmenter_forward_unfold. unfold augmentation.
      cbn [Augmenter.order Augmenter.augment_idx Augmenter.augment_func
           Augmenter.augment_dims].
      rewrite Hf. unfold py_setitem, shape_list. rewrite length_fmap.
      unfold rank in Hi. rewrite Hi. simpl. unfold torch_zeros.
      rewrite (torch_full_negative _ _ _ k d); [by destruct (String.eqb _ _)| |done].
      apply list_lookup_insert_eq. by rewrite length_fmap.
    + rewrite <-(Z2Nat.id d) at 1 by lia.
      by apply Augmenter_forward_padding.
  - rewrite Augmenter_forward_unfold. unfold augmentation.
    cbn [Augmenter.order Augmenter.augment_idx Augmenter.augment_func
         Augmenter.augment_dims].
    rewrite Hf, py_setitem_shape_error by done.
    by destruct (String.eqb _ _).
Qed.

(** X2. [augment_dims = 0] pads nothing: whatever the order, [forward]
    returns [x] itself. *)
Theorem Augmenter_forward_zero_dims x f (i : Z) (k : nat) (o : string) :
  wf x → py_truthy f = None →
  py_index (rank x) i = Some k →
  Augmenter.forward (Augmenter.make i 0 f o) x = Ok x.
Proof.
  intros Hx Hf Hi. pose proof (py_index_lt _ _ _ Hi) as Hk.
  pose proof (Augmenter_forward_padding x f i 0 k o Hx Hf Hi) as E.
  change (Z.of_nat 0) with 0%Z in E. rewrite E. clear E.
  destruct x as [sh dx]. unfold rank, wf in *. simpl in *.
  destruct (lookup_lt_is_Some_2 sh k Hk) as [n Hn].
  f_equal. unfold cat_axis, zeros_block, full, size. simpl.
  destruct (String.eqb o "first"); f_equal.
  - rewrite list_lookup_insert_eq, Hn by done. simpl.
    rewrite list_insert_insert_eq. by apply list_insert_id.
  - by apply cat_data_empty_l.
  - rewrite list_lookup_insert_eq, Hn by done. simpl.
    rewrite Nat.add_0_r. by apply list_insert_id.
  - by apply cat_data_empty_r.
Qed.

(** X3. Padding twice along the same axis in the same order is padding once
    with the sum of the two sizes. *)
Theorem Augmenter_forward_twice x f (i : Z) (d1 d2 k : nat) (o : string) :
  wf x → py_truthy f = None →
  py_index (rank x) i = Some k →
  ∃ y, Augmenter.forward (Augmenter.make i (Z.of_nat d1) f o) x = Ok y
       ∧ Augmenter.forward (Augmenter.make i (Z.of_nat d2) f o) y
         = Augmenter.forward (Augmenter.make i (Z.of_nat (d1 + d2)) f o) x.
Proof.
  intros Hx Hf Hi. pose proof (py_index_lt _ _ _ Hi) as Hk.
  destruct (zeros_block_facts d1 x k Hk) as (Hz & Hzx & Hr & Sz).
  rewrite (Augmenter_forward_padding x f i d1 k o Hx Hf Hi).
  rewrite (Augmenter_forward_padding x f i (d1 + d2) k o Hx Hf Hi).
  eexists. split; [reflexivity|].
  unfold rank in *.
  destruct (lookup_lt_is_Some_2 (shape x) k Hk) as [n Hn].
  assert (Sx : size x k = n) by (unfold size; by rewrite Hn).
  destruct (String.eqb o "first") eqn:Ho.
  - set (y := cat_axis (zeros_block d1 x k) x k).
    assert (Hy : wf y) by (apply wf_cat_axis; try done; by rewrite Hr).
    assert (Sy : shape y = <[k := d1 + n]> (shape x)).
    { unfold y, cat_axis. cbn [shape]. rewrite Sz, Sx.
      unfold zeros_block. cbn [shape full]. by rewrite list_insert_insert_eq. }
    assert (Hiy : py_index (rank y) i = Some k)
      by (unfold rank; by rewrite Sy, length_insert).
    rewrite (Augmenter_forward_padding y f i d2 k o Hy Hf Hiy), Ho.
    f_equal. unfold cat_axis, zeros_block, full, size. cbn [shape data].
    rewrite Sy. f_equal.
    + rewrite !list_insert_insert_eq, !list_lookup_insert_eq, Hn
        by (rewrite ?length_insert; done).
      simpl. f_equal. lia.
    + unfold y, cat_axis, zeros_block, full. cbn [data].
      rewrite list_insert_insert_eq, <-cat_data_assoc.
      rewrite cat_data_full by done. by rewrite (Nat.add_comm d2 d1).
  - set (y := cat_axis x (zeros_block d1 x k) k).
    assert (Hy : wf y) by (by apply wf_cat_axis).
    assert (Sy : shape y = <[k := n + d1]> (shape x)).
    { unfold y, cat_axis. cbn [shape]. by rewrite Sz, Sx. }
    assert (Hiy : py_index (rank y) i = Some k)
      by (unfold rank; by rewrite Sy, length_insert).
    rewrite (Augmenter_forward_padding y f i d2 k o Hy Hf Hiy), Ho.
    f_equal. unfold cat_axis, zeros_block, full, size. cbn [shape data].
    rewrite Sy. f_equal.
    + rewrite !list_insert_insert_eq, !list_lookup_insert_eq, Hn
        by (rewrite ?length_insert; done).
      simpl. f_equal. lia.
    + unfold y, cat_axis, zeros_block, full. cbn [data].
      rewrite list_insert_insert_eq, cat_data_assoc.
      by rewrite cat_data_full by done.
Qed.

End AugmenterMore.

Section CatCases.
Context {elt : Type} `{Dtype elt}.
Implicit Types (a b x : tensor elt).

(** torch.cat when neither tensor is 1-D empty. *)
Lemma torch_cat_plain a b dim :
  shape a ≠ [0] → shape b ≠ [0] →
  torch_cat a b dim
  = if bool_decide (shape a = [] ∨ shape b = [])
    then Raise (RuntimeError OpCat)
    else k ← wrap_dim OpCat (rank a) dim;
         if agree_off k (shape a) (shape b) then Ok (cat_axis a b k)
         else Raise (RuntimeError OpCat).
Proof.
  intros Ha Hb. case_bool_decide as E.
  - unfold torch_cat. destruct E as [-> | ->]; [done|].
    by rewrite orb_true_r.
  - rewrite torch_cat_axes by tauto. unfold cat_skips.
    rewrite (bool_decide_false (shape a = [0])) by done.
    by rewrite (bool_decide_false (shape b = [0])) by done.
Qed.

(** The dim of torch.cat only matters through the axis it names. *)
Lemma torch_cat_alias a b (i j : Z) :
  rank a = rank b →
  py_index (rank a) i = py_index (rank a) j →
  torch_cat a b i = torch_cat a b j.
Proof.
  intros Hr Hij. unfold torch_cat, wrap_dim.
  assert (E : length (shape (if cat_skips a then b else a)) = rank a)
    by (by destruct (cat_skips a)).
  by rewrite E, Hij.
Qed.

Lemma py_index_alias (n k : nat) :
  k < n → py_index n (Z.of_nat k - Z.of_nat n) = py_index n (Z.of_nat k).
Proof. intros Hk. by rewrite py_index_neg, py_index_nonneg. Qed.

Lemma torch_full_rank op (v : elt) (dims : list Z) z :
  torch_full op v dims = Ok z → rank z = length dims.
Proof.
  unfold torch_full. destruct (forallb _ _); [|done].
  intros [= <-]. unfold rank. simpl. by rewrite length_fmap.
Qed.

End CatCases.

Section AugmenterLearnedMore.
Context {elt : Type} `{Dtype elt}.
Implicit Types (x a : tensor elt).

(** X5. No shape check is made on what [augment_func] returns: when it
    cannot be concatenated with [x] along [augment_idx] (and neither tensor is
    1-D empty), [forward] raises, and the exception is the one of
    [torch.cat]. *)
Theorem Augmenter_forward_learned_mismatch x a (f : module elt) (i d : Z)
    (o : string) :
  truthy f = true → call f x = Ok a →
  shape x ≠ [0] → shape a ≠ [0] →
  (¬ ∃ k, py_index (rank x) i = Some k
          ∧ <[k := 0]> (shape a) = <[k := 0]> (shape x)) →
  fails_at OpCat (Augmenter.forward (Augmenter.make i d (Some f) o) x).
Proof.
  intros Hf Hcall Hx Ha Hno.
  rewrite Augmenter_forward_unfold. unfold augmentation.
  cbn [Augmenter.order Augmenter.augment_idx Augmenter.augment_func py_truthy].
  rewrite Hf, Hcall. simpl.
  destruct (String.eqb o "first").
  - rewrite torch_cat_plain by done. case_bool_decide; [by eexists|].
    unfold wrap_dim. destruct (py_index (rank a) i) as [k|] eqn:Hi;
      simpl; [|by eexists].
    unfold agree_off. case_bool_decide as Hsh; [|by eexists].
    destruct Hno. exists k. split; [|done].
    unfold rank in *. by rewrite <-(agree_off_length _ _ _ Hsh).
  - rewrite torch_cat_plain by done. case_bool_decide; [by eexists|].
    unfold wrap_dim. destruct (py_index (rank x) i) as [k|] eqn:Hi;
      simpl; [|by eexists].
    unfold agree_off. case_bool_decide as Hsh; [|by eexists].
    destruct Hno. by exists k.
Qed.

(** X6. A negative [augment_idx] counts axes from the end: on the padding
    branch, index [k - rank] gives the result of index [k]. *)
Theorem Augmenter_forward_negative_idx x (f : option (module elt)) (d : Z)
    (k : nat) (o : string) :
  py_truthy f = None → k < rank x →
  Augmenter.forward
    (Augmenter.make (Z.of_nat k - Z.of_nat (rank x)) d f o) x
  = Augmenter.forward (Augmenter.make (Z.of_nat k) d f o) x.
Proof.
  intros Hf Hk. pose proof (py_index_alias (rank x) k Hk) as Hij.
  rewrite !Augmenter_forward_unfold. unfold augmentation.
  cbn [Augmenter.order Augmenter.augment_idx Augmenter.augment_func
       Augmenter.augment_dims].
  rewrite Hf. unfold py_setitem, shape_list. rewrite length_fmap.
  fold (rank x). rewrite Hij, (py_index_nonneg _ _ Hk). simpl.
  unfold torch_zeros.
  destruct (torch_full _ _ _) as [z|e] eqn:Ez; simpl;
    [|by destruct (String.eqb _ _)].
  apply torch_full_rank in Ez. rewrite length_insert, length_fmap in Ez.
  fold (rank x) in Ez.
  destruct (String.eqb o "first"); apply torch_cat_alias;
    rewrite ?Ez; done.
Qed.

End AugmenterLearnedMore.

Section DepthCatMore.
Context {elt : Type} `{Dtype elt} `{!DtypeUnit elt}.
Implicit Types (x t p : tensor elt) (self : DepthCat.t elt).

(** X7. For any axis [k] that [idx_cat] names and [s] a scalar [v], [forward]
    returns [x] with one more slice along axis [k]: the slices of [x] come
    first and the added last slice holds [v] everywhere. *)
Theorem DepthCat_forward_any_axis x (v : elt) (d : DepthCat.depth elt)
    (i : Z) (k : nat) :
  wf x → py_index (rank x) i = Some k → scalar_depth v d →
  ∃ y, (DepthCat.forward (DepthCat.make i (Some d)) x).2 = Ok y
       ∧ wf y
       ∧ shape y = <[k := size x k + 1]> (shape x)
       ∧ narrow y k 0 (size x k) = x
       ∧ narrow y k (size x k) 1 = depth_block v x k
       ∧ ∀ idx, idx !! k = Some (size x k) →
                Forall2 lt (<[k := 0]> idx) (<[k := 1]> (shape x)) →
                item y idx = Some v.
Proof.
  intros Hx Hi Hd. pose proof (py_index_lt _ _ _ Hi) as Hk.
  rewrite (DepthCat_forward_scalar (DepthCat.make i (Some d)) x v d k
             Hx Hi eq_refl Hd).
  cbn [snd].
  pose proof (wf_full v (<[k := 1]> (shape x))) as Hb.
  fold (depth_block v x k) in Hb.
  pose proof (depth_block_agree v x k) as Hsh.
  assert (Sb : size (depth_block v x k) k = 1)
    by (by apply size_full_resized).
  exists (cat_axis x (depth_block v x k) k). repeat split.
  - by apply wf_cat_axis.
  - unfold cat_axis. cbn [shape]. by rewrite Sb.
  - by apply narrow_cat_axis_l.
  - pose proof (narrow_cat_axis_r x (depth_block v x k) k Hx Hb Hk Hsh) as N.
    by rewrite Sb in N.
  - intros idx Hidx Hin. unfold item, cat_axis. cbn [data].
    rewrite (item_cat_r k (shape x) (shape (depth_block v x k)) _ _ idx
               (size x k)); try done.
    fold (size x k). rewrite Nat.sub_diag. by apply item_full.
Qed.

(** X8. When [idx_cat] is not an axis of [x] (always so for a tensor without
    axes), [forward] raises IndexError at [s_shape[idx_cat] = 1] whatever [s]
    holds, and [s] is left as it was. *)
Theorem DepthCat_forward_bad_axis self x :
  py_index (rank x) (DepthCat.idx_cat self) = None →
  DepthCat.forward self x = (self, Raise (IndexError OpSetItem))
  ∧ (shape x = [] →
     ∀ self', DepthCat.forward self' x = (self', Raise (IndexError OpSetItem))).
Proof.
  intros Hi. split.
  - unfold DepthCat.forward. by rewrite py_setitem_shape_error.
  - intros Sx self'. unfold DepthCat.forward.
    rewrite py_setitem_shape_error; [done|].
    rewrite Sx. unfold py_index. simpl.
    repeat case_bool_decide; try done; lia.
Qed.

(** X9. With [s] a tensor that has one entry per position of [x] away from
    the axis (shape of [x] with axis [k] resized to 1), [forward] appends
    that tensor as the last slice along axis [k] and does not change the
    instance. *)
Theorem DepthCat_forward_per_sample self x t (k : nat) :
  wf x → wf t →
  py_index (rank x) (DepthCat.idx_cat self) = Some k →
  shape t = <[k := 1]> (shape x) →
  DepthCat.s self = Some (DepthCat.Tens t) →
  ∃ y, DepthCat.forward self x = (self, Ok y)
       ∧ wf y
       ∧ shape y = <[k := size x k + 1]> (shape x)
       ∧ narrow y k 0 (size x k) = x
       ∧ narrow y k (size x k) 1 = t.
Proof.
  intros Hx Ht Hi St Hs. pose proof (py_index_lt _ _ _ Hi) as Hk.
  rewrite (DepthCat_forward_tensor self x t k Hx Ht Hi St Hs).
  assert (Hsh : <[k := 0]> (shape x) = <[k := 0]> (shape t))
    by (by rewrite St, agree_off_resized).
  assert (Sb : size t k = 1).
  { unfold size. rewrite St. by rewrite list_lookup_insert_eq. }
  exists (cat_axis x t k). repeat split.
  - by apply wf_cat_axis.
  - unfold cat_axis. cbn [shape]. by rewrite Sb.
  - by apply narrow_cat_axis_l.
  - pose proof (narrow_cat_axis_r x t k Hx Ht Hk Hsh) as N.
    by rewrite Sb in N.
Qed.

(** X10. [forward] can raise after it has assigned to [s]: when the product
    [s * ones] exists but cannot be concatenated with [x] (neither tensor
    being 1-D empty), the call raises at [torch.cat] and [s] holds the
    product. *)
Theorem DepthCat_forward_raises_after_write self x t p (k : nat) :
  py_index (rank x) (DepthCat.idx_cat self) = Some k →
  DepthCat.s self = Some (DepthCat.Tens t) →
  torch_mul t (full elt_one (<[k := 1]> (shape x))) = Ok p →
  shape x ≠ [0] → shape p ≠ [0] →
  <[k := 0]> (shape x) ≠ <[k := 0]> (shape p) →
  DepthCat.forward self x
  = (DepthCat.set_s self (Some (DepthCat.Tens p)), Raise (RuntimeError OpCat)).
Proof.
  intros Hi Hs Hmul Hx Hp Hsh. pose proof (py_index_lt _ _ _ Hi) as Hk.
  unfold DepthCat.forward.
  pose proof (py_setitem_shape x _ k 1 Hi) as E.
  change (Z.of_nat 1) with 1%Z in E. rewrite E. simpl.
  unfold torch_ones. rewrite torch_full_sizes. simpl.
  rewrite Hs. simpl. unfold to. rewrite Hmul. f_equal.
  rewrite torch_cat_plain by done. case_bool_decide; [done|].
  unfold wrap_dim. rewrite Hi. simpl. unfold agree_off.
  by rewrite bool_decide_false.
Qed.

(** X11. A stale [s] breaks on a new batch size: after a [forward] on a
    (B, C) input with [s] a scalar and [idx_cat = 1], a [forward] on a
    (B', C') input with B' different from B, neither being 1, raises at the
    product (the stored (B, 1) tensor does not broadcast against the
    (B', 1) ones) and leaves the instance as it is. *)
Theorem DepthCat_forward_stale_depth x x' (v : elt) (d : DepthCat.depth elt)
    (B C B' C' : nat) :
  wf x → shape x = [B; C] → shape x' = [B'; C'] →
  scalar_depth v d →
  B ≠ B' → B ≠ 1 → B' ≠ 1 →
  let self1 := (DepthCat.forward (DepthCat.make 1 (Some d)) x).1 in
  DepthCat.forward self1 x' = (self1, Raise (RuntimeError OpMul)).
Proof.
  intros Hx Sx Sx' Hd HB HB1 HB'1.
  assert (Hi : py_index (rank x) 1 = Some 1) by (unfold rank; by rewrite Sx).
  rewrite (DepthCat_forward_scalar (DepthCat.make 1 (Some d)) x v d 1
             Hx Hi eq_refl Hd).
  cbn [fst]. unfold DepthCat.forward. cbn [DepthCat.idx_cat DepthCat.set_s].
  assert (Hi' : py_index (rank x') 1 = Some 1)
    by (unfold rank; by rewrite Sx').
  pose proof (py_setitem_shape x' 1 1 1 Hi') as E.
  change (Z.of_nat 1) with 1%Z in E. rewrite E. simpl.
  unfold torch_ones. rewrite torch_full_sizes. simpl.
  unfold torch_mul, depth_block, broadcast_shapes. simpl.
  rewrite Sx, Sx'. simpl.
  rewrite (bool_decide_false (B = B')) by done.
  rewrite (bool_decide_false (B = 1)) by done.
  by rewrite (bool_decide_false (B' = 1)) by done.
Qed.

(** X12. A negative [idx_cat] counts axes from the end: with [s] a scalar,
    index [k - rank] returns what index [k] returns and stores the same
    tensor in [s]. *)
Theorem DepthCat_forward_negative_idx x (v : elt) (d : DepthCat.depth elt)
    (k : nat) :
  wf x → k < rank x → scalar_depth v d →
  let neg := DepthCat.make (Z.of_nat k - Z.of_nat (rank x)) (Some d) in
  let pos := DepthCat.make (Z.of_nat k) (Some d) in
  (DepthCat.forward neg x).2 = (DepthCat.forward pos x).2
  ∧ DepthCat.s (DepthCat.forward neg x).1 = DepthCat.s (DepthCat.forward pos x).1.
Proof.
  intros Hx Hk Hd neg pos.
  rewrite (DepthCat_forward_scalar neg x v d k Hx (py_index_neg _ _ Hk)
             eq_refl Hd).
  rewrite (DepthCat_forward_scalar pos x v d k Hx (py_index_nonneg _ _ Hk)
             eq_refl Hd).
  done.
Qed.

End DepthCatMore.

Section DataControlMore.
Context {elt : Type} `{Dtype elt}.
Implicit Types (x c : tensor elt).

(** X13. For inputs with any number of axes from 2 on: when [u] agrees with
    [x] away from axis 1, [forward] returns [x] followed by [u] along axis 1;
    only the size of axis 1 changes, to the sum of the two sizes, and the
    two parts can be read back. *)
Theorem DataControl_forward_any_rank x c :
  wf x → wf c → 2 ≤ rank x →
  <[1 := 0]> (shape x) = <[1 := 0]> (shape c) →
  ∃ y, DataControl.forward (DataControl.make (Some c)) x = Ok y
       ∧ wf y
       ∧ shape y = <[1 := size x 1 + size c 1]> (shape x)
       ∧ narrow y 1 0 (size x 1) = x
       ∧ narrow y 1 (size x 1) (size c 1) = c.
Proof.
  intros Hx Hc Hr Hsh. unfold rank in Hr.
  assert (Hk : 1 < length (shape x)) by lia.
  assert (Hdim : py_index (length (shape x)) 1 = Some 1)
    by (apply (py_index_nonneg _ 1); lia).
  exists (cat_axis x c 1). unfold DataControl.forward. simpl.
  rewrite (torch_cat_ok x c 1 1 Hx Hc Hdim Hsh). repeat split.
  - by apply wf_cat_axis.
  - by apply narrow_cat_axis_l.
  - by apply narrow_cat_axis_r.
Qed.

(** X14. The outcomes of [forward] when neither [x] nor [u] is 1-D empty: a
    tensor without axes, be it [x] or [u], cannot be concatenated
    (RuntimeError, raised before the axis is looked at); otherwise a 1-D [x]
    has no axis 1 (IndexError); otherwise shapes that differ away from axis 1
    are refused (RuntimeError); and otherwise the concatenation is
    returned. *)
Theorem DataControl_forward_cases x c :
  shape x ≠ [0] → shape c ≠ [0] →
  DataControl.forward (DataControl.make (Some c)) x
  = if bool_decide (rank x = 0 ∨ rank c = 0) then Raise (RuntimeError OpCat)
    else if bool_decide (rank x = 1) then Raise (IndexError OpCat)
    else if bool_decide (<[1 := 0]> (shape x) = <[1 := 0]> (shape c))
         then Ok (cat_axis x c 1)
         else Raise (RuntimeError OpCat).
Proof.
  intros Hx Hc. unfold DataControl.forward. simpl.
  rewrite torch_cat_plain by done.
  rewrite (bool_decide_ext (shape x = [] ∨ shape c = [])
             (rank x = 0 ∨ rank c = 0))
    by (unfold rank; by rewrite !length_zero_iff_nil).
  case_bool_decide as E; [done|].
  unfold rank, wrap_dim, py_index, agree_off in *.
  destruct (shape x) as [|n [|m sh]]; simpl in *; [tauto|done|].
  rewrite bool_decide_true by lia. simpl.
  change (Z.to_nat 1) with 1. by case_bool_decide.
Qed.

(** X15. A 1-D empty tensor is left out by [torch.cat]: with such a [u],
    [forward] returns [x] unchanged for every [x] with at least 2 axes; and
    on a 1-D empty [x] it returns [u] when [u] has at least 2 axes. *)
Theorem DataControl_forward_empty x c :
  (shape c = [0] → 2 ≤ rank x →
   DataControl.forward (DataControl.make (Some c)) x = Ok x)
  ∧ (shape x = [0] → 2 ≤ rank c →
     DataControl.forward (DataControl.make (Some c)) x = Ok c).
Proof.
  unfold DataControl.forward, rank. simpl. split; intros S0 Hr.
  - assert (Hx0 : shape x ≠ [0]) by (intros E; rewrite E in Hr; simpl in Hr; lia).
    assert (Hx1 : shape x ≠ []) by (intros E; rewrite E in Hr; simpl in Hr; lia).
    rewrite torch_cat_axes by (by rewrite ?S0). unfold cat_skips, wrap_dim.
    rewrite S0, (bool_decide_false (shape x = [0])) by done. simpl.
    change 1%Z with (Z.of_nat 1). by rewrite py_index_nonneg by lia.
  - assert (Hc0 : shape c ≠ [0]) by (intros E; rewrite E in Hr; simpl in Hr; lia).
    assert (Hc1 : shape c ≠ []) by (intros E; rewrite E in Hr; simpl in Hr; lia).
    rewrite torch_cat_axes by (by rewrite ?S0). unfold cat_skips, wrap_dim.
    rewrite S0, (bool_decide_false (shape c = [0])) by done. simpl.
    change 1%Z with (Z.of_nat 1). by rewrite py_index_nonneg by lia.
Qed.

End DataControlMore.

Section BroadcastFacts.
Context {elt : Type} `{Dtype elt}.
Implicit Types (a b t : tensor elt) (d : nd elt) (sh sa sb : list nat).

Lemma fits_ones (l : list nat) : Forall2 fits (replicate (length l) 1) l.
Proof.
  apply Forall2_replicate_l; [done|]. apply Forall_forall. intros ? _. by right.
Qed.

Lemma fits_refl (l : list nat) : Forall2 fits l l.
Proof. induction l; constructor; [by left|done]. Qed.

(** Both operands fit the broadcast shape once padded with ones (shapes given
    last axis first, so the padding is at the end). *)
Lemma broadcast_rev_fits (ra rb r : list nat) :
  broadcast_rev ra rb = Some r →
  length ra ≤ length r ∧ length rb ≤ length r
  ∧ Forall2 fits (ra ++ replicate (length r - length ra) 1) r
  ∧ Forall2 fits (rb ++ replicate (length r - length rb) 1) r.
Proof.
  revert rb r. induction ra as [|n ra IH]; intros rb r.
  - simpl. intros [= <-]. rewrite Nat.sub_0_r, Nat.sub_diag, app_nil_r.
    repeat split; [lia|done|apply fits_ones|apply fits_refl].
  - destruct rb as [|m rb].
    + simpl. intros [= <-]. simpl. rewrite Nat.sub_diag, app_nil_r.
      repeat split; [done|lia|apply fits_refl|].
      apply (fits_ones (n :: ra)).
    + simpl. destruct (broadcast_rev ra rb) as [r'|] eqn:E;
        [|by repeat case_bool_decide].
      destruct (IH rb r' E) as (La & Lb & Fa & Fb).
      intros Hr.
      assert (∃ h, r = h :: r' ∧ fits n h ∧ fits m h) as (h & -> & Fn & Fm).
      { repeat case_bool_decide; simplify_eq/=.
        - exists m. repeat split; by left.
        - exists m. repeat split; [by right|by left].
        - exists n. repeat split; [by left|by right]. }
      simpl.
      repeat split; try lia; by constructor.
Qed.

Lemma broadcast_shapes_fits sa sb sh :
  broadcast_shapes sa sb = Some sh →
  Forall2 fits (replicate (length sh - length sa) 1 ++ sa) sh
  ∧ Forall2 fits (replicate (length sh - length sb) 1 ++ sb) sh.
Proof.
  unfold broadcast_shapes.
  destruct (broadcast_rev _ _) as [r|] eqn:E; [|done]. intros [= <-].
  destruct (broadcast_rev_fits _ _ _ E) as (_ & _ & Fa & Fb).
  rewrite !length_reverse in *.
  apply Forall2_reverse in Fa, Fb.
  rewrite !reverse_app, !reverse_replicate, !reverse_involutive in Fa, Fb.
  done.
Qed.

Lemma conformsb_unsqueeze (n : nat) sh d :
  conformsb sh d → conformsb (replicate n 1 ++ sh) (unsqueeze_data n d).
Proof.
  intros Hd. induction n as [|n IH]; [done|].
  cbn [replicate app unsqueeze_data Nat.iter].
  apply conformsb_node. split; [done|]. by constructor.
Qed.

Lemma conformsb_expand (src tgt : list nat) d :
  Forall2 fits src tgt → conformsb src d →
  conformsb tgt (expand_data src tgt d).
Proof.
  intros Hf. revert d.
  induction Hf as [|n m src tgt Hnm _ IH]; intros d Hd; [done|].
  apply conformsb_cons in Hd as (l & -> & Hl & Fl).
  cbn [expand_data children]. case_bool_decide as E.
  - subst m. apply conformsb_node. split; [by rewrite length_map|].
    apply Forall_fmap. eapply Forall_impl; [exact Fl|].
    intros c Hc. by apply IH.
  - destruct Hnm as [?| ->]; [done|].
    destruct l as [|c [|? ?]]; try done. simpl.
    apply Forall_cons in Fl as [Hc _].
    apply conformsb_node. split; [by rewrite length_replicate|].
    apply Forall_replicate. by apply IH.
Qed.

Lemma conformsb_zip (f : elt → elt → elt) sh (d1 d2 : nd elt) :
  conformsb sh d1 → conformsb sh d2 → conformsb sh (zip_data f d1 d2).
Proof.
  revert d1 d2. induction sh as [|n sh IH]; intros d1 d2 H1 H2.
  - apply conformsb_nil in H1 as [v1 ->], H2 as [v2 ->]. done.
  - apply conformsb_cons in H1 as (l1 & -> & L1 & F1).
    apply conformsb_cons in H2 as (l2 & -> & L2 & F2).
    simpl. apply conformsb_node. split.
    + rewrite length_zip_with. lia.
    + eapply Forall_zip_with_both; [|exact F1|exact F2].
      intros x y Hx Hy. by apply IH.
Qed.

(** The product of two well-formed tensors is well-formed. *)
Lemma wf_torch_mul a b p :
  wf a → wf b → torch_mul a b = Ok p → wf p.
Proof.
  intros Ha Hb. unfold torch_mul.
  destruct (broadcast_shapes _ _) as [sh|] eqn:E; [|done]. intros [= <-].
  destruct (broadcast_shapes_fits _ _ _ E) as [Fa Fb].
  unfold wf, expand_to. simpl.
  apply conformsb_zip; (apply conformsb_expand; [done|]);
    by apply conformsb_unsqueeze.
Qed.

(** What torch.cat returns on well-formed tensors is well-formed. *)
Lemma wf_torch_cat a b dim y :
  wf a → wf b → torch_cat a b dim = Ok y → wf y.
Proof.
  intros Ha Hb. unfold torch_cat.
  destruct (bool_decide (shape a = []) || bool_decide (shape b = []));
    [done|].
  destruct (cat_skips a) eqn:Sa, (cat_skips b) eqn:Sb; simpl.
  - by intros [= <-].
  - destruct (wrap_dim _ _ _); [|done].
    simpl. by intros [= <-].
  - destruct (wrap_dim _ _ _); [|done].
    simpl. by intros [= <-].
  - unfold wrap_dim. destruct (py_index _ dim) as [k|] eqn:Hi; [|done].
    simpl. unfold agree_off. case_bool_decide as Hsh; [|done].
    intros [= <-]. apply wf_cat_axis; try done.
    by apply py_index_lt in Hi.
Qed.

End BroadcastFacts.

Section Invariant.
Context {elt : Type} `{Dtype elt}.
Implicit Types (x t y : tensor elt).

Lemma conformsb_map (f : elt → elt) sh (d : nd elt) :
  conformsb sh d → conformsb sh (map_data f d).
Proof.
  revert d. induction sh as [|n sh IH]; intros d Hd.
  - by apply conformsb_nil in Hd as [v ->].
  - apply conformsb_cons in Hd as (l & -> & Hl & Fl). simpl.
    apply conformsb_node. split; [by rewrite length_map|].
    apply Forall_fmap. eapply Forall_impl; [exact Fl|].
    intros c Hc. by apply IH.
Qed.

Lemma wf_torch_full op (v : elt) dims t : torch_full op v dims = Ok t → wf t.
Proof.
  unfold torch_full. destruct (forallb _ _); [|done].
  intros [= <-]. apply wf_full.
Qed.

Lemma wf_py_mul (s : option (DepthCat.depth elt)) t p :
  (∀ a, s = Some (DepthCat.Tens a) → wf a) →
  wf t → DepthCat.py_mul s t = Ok p → wf p.
Proof.
  intros Hs Ht. destruct s as [[c|a]|]; simpl; [| |done].
  - intros [= <-]. by apply conformsb_map.
  - apply wf_torch_mul; [by apply Hs|done].
Qed.

(** X16. Well-formedness is kept: on a well-formed [x], with well-formed
    stored tensors and an [augment_func] that returns well-formed tensors,
    whatever a [forward] returns is a well-formed tensor (its entries fill
    exactly its shape), and so is the tensor [DepthCat.forward] leaves in
    [s]. *)
Theorem forward_keeps_wf x (a : Augmenter.t elt) (dc : DepthCat.t elt)
    (c : DataControl.t elt) :
  wf x →
  (∀ m t, Augmenter.augment_func a = Some m → call m x = Ok t → wf t) →
  (∀ t, DepthCat.s dc = Some (DepthCat.Tens t) → wf t) →
  (∀ t, DataControl.u c = Some t → wf t) →
  (∀ y, Augmenter.forward a x = Ok y → wf y)
  ∧ (∀ y, (DepthCat.forward dc x).2 = Ok y → wf y)
  ∧ (∀ t, DepthCat.s (DepthCat.forward dc x).1 = Some (DepthCat.Tens t) → wf t)
  ∧ (∀ y, DataControl.forward c x = Ok y → wf y).
Proof.
  intros Hx Hf Hs Hu.
  assert (Haug : ∀ t, augmentation a x = Ok t → wf t).
  { intros t. unfold augmentation.
    destruct (Augmenter.augment_func a) as [m|] eqn:Ef; simpl.
    - destruct (truthy m); [by apply Hf|].
      destruct (py_setitem _ _ _) as [dims|]; [|done]. simpl.
      apply wf_torch_full.
    - destruct (py_setitem _ _ _) as [dims|]; [|done]. simpl.
      apply wf_torch_full. }
  assert (Hdc : ∀ p,
            (s_shape ← py_setitem (shape_list x) (DepthCat.idx_cat dc) 1;
             ones ← torch_ones s_shape;
             DepthCat.py_mul (DepthCat.s dc) (to ones x)) = Ok p → wf p).
  { intros p. destruct (py_setitem _ _ _) as [dims|]; [|done]. simpl.
    destruct (torch_ones dims) as [ones|] eqn:Eo; [|done]. simpl.
    apply wf_py_mul; [done|]. by apply wf_torch_full in Eo. }
  repeat split.
  - intros y. rewrite Augmenter_forward_unfold.
    destruct (augmentation a x) as [t|] eqn:Et;
      [|by destruct (String.eqb _ _)].
    specialize (Haug t eq_refl). simpl.
    destruct (String.eqb _ _); by apply wf_torch_cat.
  - intros y. unfold DepthCat.forward.
    destruct (_ ≫= _) as [p|] eqn:Ep; [|done].
    specialize (Hdc p eq_refl). cbn [snd DepthCat.set_s DepthCat.idx_cat].
    destruct (torch_cat x p _) as [y'|] eqn:Ec; [|done].
    simpl. intros [= <-]. by apply (wf_torch_cat x p _ y' Hx Hdc Ec).
  - intros t. unfold DepthCat.forward.
    destruct (_ ≫= _) as [p|] eqn:Ep; cbn [fst DepthCat.set_s DepthCat.s].
    + intros [= <-]. by apply Hdc.
    + apply Hs.
  - intros y. unfold DataControl.forward.
    destruct (DataControl.u c) as [t|] eqn:Eu; [|done].
    destruct (torch_cat x t 1) as [y'|] eqn:Ec; [|done].
    simpl. intros [= <-]. by apply (wf_torch_cat x t 1 y' Hx (Hu t eq_refl) Ec).
Qed.

End Invariant.

Section VectorDepth.
Context {elt : Type} `{Dtype elt} `{!DtypeUnit elt}.
Implicit Types (x t : tensor elt).

(** The product of a 1-D tensor of [m] entries with the (B, 1) ones: every
    row of the (B, m) result is the 1-D tensor. *)
Lemma torch_mul_vector_ones t (B m : nat) :
  wf t → shape t = [m] →
  torch_mul t (full elt_one [B; 1])
  = Ok (Tensor [B; m] (Node (replicate B (data t)))).
Proof.
  intros Ht St. unfold wf in Ht. rewrite St in Ht.
  assert (Hbs : broadcast_shapes [m] [B; 1] = Some [B; m]).
  { unfold broadcast_shapes.
    change (reverse [m]) with [m]. change (reverse [B; 1]) with [1; B].
    simpl. repeat case_bool_decide; simplify_eq/=; done. }
  unfold torch_mul. rewrite St. cbn [shape full]. rewrite Hbs.
  do 2 f_equal.
  assert (Ea : expand_to [B; m] t = Node (replicate B (data t))).
  { unfold expand_to. rewrite St. simpl.
    rewrite (bool_decide_true (m = m)) by done.
    apply conformsb_cons in Ht as (l & -> & _ & _). simpl. rewrite map_id.
    case_bool_decide as E; [by subst B|done]. }
  assert (Eb : expand_to [B; m] (full elt_one [B; 1])
               = full_data elt_one [B; m]).
  { unfold expand_to. simpl.
    rewrite bool_decide_true by done. f_equal.
    change (map ?g ?l) with (g <$> l). rewrite fmap_replicate. f_equal.
    case_bool_decide as E; [by subst m|done]. }
  rewrite Ea, Eb. apply zip_data_ones_r.
  apply conformsb_node. split; [by rewrite length_replicate|].
  by apply Forall_replicate.
Qed.

(** X17. A 1-D [s] of [m] entries is broadcast along the rows, not matched
    with them: on a (B, C) input with [idx_cat = 1], [forward] appends all
    [m] entries to every row (result of shape (B, C + m)), and [s] becomes
    the (B, m) tensor whose rows all equal the old [s]. *)
Theorem DepthCat_forward_vector_depth x t (B C m : nat) :
  wf x → wf t → shape x = [B; C] → shape t = [m] →
  let self := DepthCat.make 1 (Some (DepthCat.Tens t)) in
  let p := Tensor [B; m] (Node (replicate B (data t))) in
  ∃ y, DepthCat.forward self x
       = (DepthCat.set_s self (Some (DepthCat.Tens p)), Ok y)
       ∧ shape y = [B; C + m]
       ∧ narrow y 1 0 C = x
       ∧ narrow y 1 C m = p
       ∧ (∀ i j, i < B → item y [i; C + j] = item t [j]).
Proof.
  intros Hx Ht Sx St self p.
  assert (Hp : wf p).
  { apply conformsb_node. split; [by rewrite length_replicate|].
    apply Forall_replicate. unfold wf in Ht. by rewrite St in Ht. }
  assert (Hi : py_index (length (shape x)) 1 = Some 1) by (by rewrite Sx).
  assert (Hk : 1 < length (shape x)) by (rewrite Sx; simpl; lia).
  assert (Hsh : <[1 := 0]> (shape x) = <[1 := 0]> (shape p))
    by (by rewrite Sx).
  assert (Ex : size x 1 = C) by (unfold size; by rewrite Sx).
  assert (Ep : size p 1 = m) by done.
  exists (cat_axis x p 1). repeat split.
  - unfold DepthCat.forward. cbn [DepthCat.idx_cat DepthCat.s self].
    pose proof (py_setitem_shape x 1 1 1 Hi) as E.
    change (Z.of_nat 1) with 1%Z in E. rewrite E. simpl.
    unfold torch_ones. rewrite torch_full_sizes. simpl. unfold to.
    rewrite Sx. cbn [insert list_insert].
    rewrite (torch_mul_vector_ones t B m Ht St). fold p.
    by rewrite (torch_cat_ok x p 1 1 Hx Hp Hi Hsh).
  - unfold cat_axis. cbn [shape]. by rewrite Ex, Ep, Sx.
  - rewrite <-Ex. by apply narrow_cat_axis_l.
  - pose proof (narrow_cat_axis_r x p 1 Hx Hp Hk Hsh) as N.
    by rewrite Ex, Ep in N.
  - intros i j Hlt. unfold item, cat_axis. cbn [data]. unfold size in Ex.
    rewrite (item_cat_r 1 (shape x) (shape p) _ _ [i; C + j] (C + j));
      try done; [|rewrite Ex; lia].
    rewrite Ex. replace (C + j - C) with j by lia.
    unfold p. simpl. by rewrite lookup_replicate_2.
Qed.

End VectorDepth.

Section InputPreserved.
Context {elt : Type} `{Dtype elt}.
Implicit Types (a b x y : tensor elt).

(** The slice that spans a whole axis is the tensor itself. *)
Lemma narrow_data_all k sh (n : nat) (d : nd elt) :
  sh !! k = Some n → conformsb sh d → narrow_data k 0 n d = d.
Proof.
  revert sh d. induction k as [|k IH]; intros [|p sh] d Hn Hd; try done.
  - injection Hn as ->.
    apply conformsb_cons in Hd as (l & -> & Hl & _). simpl.
    f_equal. apply take_ge. lia.
  - apply conformsb_cons in Hd as (l & -> & _ & Fl). simpl. f_equal.
    change (map ?g ?l) with (g <$> l).
    rewrite <-(list_fmap_id l) at 2. apply Forall_fmap_ext_1.
    eapply Forall_impl; [exact Fl|]. intros c Hc. simpl. by apply (IH sh).
Qed.

Lemma narrow_all x k : wf x → k < rank x → narrow x k 0 (size x k) = x.
Proof.
  intros Hx Hk. destruct x as [sh d]. unfold rank, wf, narrow, size in *.
  simpl in *. destruct (lookup_lt_is_Some_2 sh k Hk) as [n Hn].
  rewrite Hn. simpl. f_equal.
  - by apply list_insert_id.
  - by apply (narrow_data_all k sh).
Qed.

(** The first argument of a successful torch.cat is the leading part of the
    result. *)
Lemma torch_cat_keeps_first a b dim y :
  wf a → wf b → shape a ≠ [0] → torch_cat a b dim = Ok y →
  ∃ k, py_index (rank a) dim = Some k ∧ narrow y k 0 (size a k) = a.
Proof.
  intros Ha Hb Sa. unfold torch_cat.
  destruct (bool_decide (shape a = []) || bool_decide (shape b = []));
    [done|].
  unfold cat_skips.
  rewrite (bool_decide_false (shape a = [0])) by done. simpl.
  unfold wrap_dim. fold (rank a).
  destruct (py_index (rank a) dim) as [k|] eqn:Hi; [|done]. simpl.
  pose proof (py_index_lt _ _ _ Hi) as Hk.
  case_bool_decide.
  - intros [= <-]. exists k. split; [done|]. by apply narrow_all.
  - unfold agree_off. case_bool_decide as Hsh; [|done].
    intros [= <-]. exists k. split; [done|]. by apply narrow_cat_axis_l.
Qed.

(** The second argument of a successful torch.cat is the trailing part of
    the result. *)
Lemma torch_cat_keeps_second a b dim y :
  wf a → wf b → shape b ≠ [0] → torch_cat a b dim = Ok y →
  ∃ k, py_index (rank b) dim = Some k
       ∧ narrow y k (size y k - size b k) (size b k) = b.
Proof.
  intros Ha Hb Sb. unfold torch_cat.
  destruct (bool_decide (shape a = []) || bool_decide (shape b = []));
    [done|].
  unfold cat_skips.
  rewrite (bool_decide_false (shape b = [0])) by done.
  rewrite andb_false_r.
  destruct (decide (shape a = [0])) as [Sa|Sa];
    [rewrite (bool_decide_true (shape a = [0])) by done
    |rewrite (bool_decide_false (shape a = [0])) by done]; simpl.
  - unfold wrap_dim. fold (rank b).
    destruct (py_index (rank b) dim) as [k|] eqn:Hi; [|done]. simpl.
    pose proof (py_index_lt _ _ _ Hi) as Hk.
    intros [= <-]. exists k. split; [done|].
    rewrite Nat.sub_diag. by apply narrow_all.
  - unfold wrap_dim. fold (rank a).
    destruct (py_index (rank a) dim) as [k|] eqn:Hi; [|done]. simpl.
    pose proof (py_index_lt _ _ _ Hi) as Hk.
    unfold agree_off. case_bool_decide as Hsh; [|done].
    intros [= <-]. exists k.
    pose proof (agree_off_length _ _ _ Hsh) as Hlen. fold (rank a) in Hlen.
    fold (rank b) in Hlen. rewrite <-Hlen. split; [done|].
    assert (Sy : size (cat_axis a b k) k = size a k + size b k).
    { unfold size at 1, cat_axis. cbn [shape].
      by rewrite list_lookup_insert_eq. }
    rewrite Sy. replace (size a k + size b k - size b k) with (size a k) by lia.
    by apply narrow_cat_axis_r.
Qed.

(** X18. No [forward] alters its input: whenever one returns, [x] (well-formed
    and not 1-D empty) can be read back from the result, as the leading part
    along the axis for [DepthCat], for [DataControl] and for [Augmenter] with
    an order other than 'first', and as the trailing part for [Augmenter]
    with order 'first'. *)
Theorem forward_preserves_input x (a : Augmenter.t elt) (dc : DepthCat.t elt)
    (c : DataControl.t elt) :
  wf x → shape x ≠ [0] →
  (∀ m t, Augmenter.augment_func a = Some m → call m x = Ok t → wf t) →
  (∀ t, DepthCat.s dc = Some (DepthCat.Tens t) → wf t) →
  (∀ t, DataControl.u c = Some t → wf t) →
  (∀ y, Augmenter.forward a x = Ok y →
        ∃ k, py_index (rank x) (Augmenter.augment_idx a) = Some k
             ∧ if String.eqb (Augmenter.order a) "first"
               then narrow y k (size y k - size x k) (size x k) = x
               else narrow y k 0 (size x k) = x)
  ∧ (∀ y, (DepthCat.forward dc x).2 = Ok y →
          ∃ k, py_index (rank x) (DepthCat.idx_cat dc) = Some k
               ∧ narrow y k 0 (size x k) = x)
  ∧ (∀ y, DataControl.forward c x = Ok y →
          ∃ k, py_index (rank x) 1 = Some k ∧ narrow y k 0 (size x k) = x).
Proof.
  intros Hx Sx Hf Hs Hu. repeat split.
  - intros y. rewrite Augmenter_forward_unfold.
    destruct (augmentation a x) as [t|] eqn:Et;
      [|by destruct (String.eqb _ _)].
    assert (Ht : wf t).
    { revert Et. unfold augmentation.
      destruct (Augmenter.augment_func a) as [m|] eqn:Ef; simpl.
      - destruct (truthy m); [by apply Hf|].
        destruct (py_setitem _ _ _) as [dims|]; [|done]. simpl.
        apply wf_torch_full.
      - destruct (py_setitem _ _ _) as [dims|]; [|done]. simpl.
        apply wf_torch_full. }
    simpl. destruct (String.eqb _ _).
    + by apply torch_cat_keeps_second.
    + by apply torch_cat_keeps_first.
  - intros y. unfold DepthCat.forward.
    destruct (_ ≫= _) as [p|] eqn:Ep; [|done].
    assert (Hp : wf p).
    { revert Ep. destruct (py_setitem _ _ _) as [dims|]; [|done]. simpl.
      destruct (torch_ones dims) as [ones|] eqn:Eo; [|done]. simpl.
      apply wf_py_mul; [done|]. by apply wf_torch_full in Eo. }
    cbn [snd DepthCat.set_s DepthCat.idx_cat].
    destruct (torch_cat x p _) as [y'|] eqn:Ec; [|done].
    simpl. intros [= <-]. by apply (torch_cat_keeps_first x p _ y').
  - intros y. unfold DataControl.forward.
    destruct (DataControl.u c) as [t|] eqn:Eu; [|done].
    destruct (torch_cat x t 1) as [y'|] eqn:Ec; [|done].
    simpl. intros [= <-].
    by apply (torch_cat_keeps_first x t 1 y' Hx (Hu t eq_refl)).
Qed.

End InputPreserved.

(** * The order of the augmentation *)

Section OrderSpec.
Context {elt : Type} `{Dtype elt}.
Implicit Types (a b x y : tensor elt).

(** The second argument of a successful torch.cat starts where the first
    one ends. *)
Lemma torch_cat_second_follows a b dim y :
  wf a → wf b → shape b ≠ [0] → torch_cat a b dim = Ok y →
  ∃ k, py_index (rank b) dim = Some k
       ∧ narrow y k (size a k) (size b k) = b.
Proof.
  intros Ha Hb Sb. unfold torch_cat.
  destruct (bool_decide (shape a = []) || bool_decide (shape b = []));
    [done|].
  unfold cat_skips.
  rewrite (bool_decide_false (shape b = [0])) by done.
  rewrite andb_false_r.
  destruct (decide (shape a = [0])) as [Sa|Sa];
    [rewrite (bool_decide_true (shape a = [0])) by done
    |rewrite (bool_decide_false (shape a = [0])) by done]; simpl.
  - unfold wrap_dim. fold (rank b).
    destruct (py_index (rank b) dim) as [k|] eqn:Hi; [|done]. simpl.
    pose proof (py_index_lt _ _ _ Hi) as Hk.
    intros [= <-]. exists k. split; [done|].
    assert (size a k = 0) as ->.
    { unfold size. rewrite Sa. by destruct k. }
    by apply narrow_all.
  - unfold wrap_dim. fold (rank a).
    destruct (py_index (rank a) dim) as [k|] eqn:Hi; [|done]. simpl.
    pose proof (py_index_lt _ _ _ Hi) as Hk.
    unfold agree_off. case_bool_decide as Hsh; [|done].
    intros [= <-]. exists k.
    pose proof (agree_off_length _ _ _ Hsh) as Hlen. fold (rank a) in Hlen.
    fold (rank b) in Hlen. rewrite <-Hlen. split; [done|].
    by apply narrow_cat_axis_r.
Qed.

(** A successful torch.cat of two tensors, neither 1-D empty, is the
    concatenation along the axis that [dim] names. *)
Lemma torch_cat_both a b dim y :
  shape a ≠ [0] → shape b ≠ [0] → torch_cat a b dim = Ok y →
  ∃ k, py_index (rank a) dim = Some k ∧ y = cat_axis a b k.
Proof.
  intros Sa Sb. rewrite torch_cat_plain by done.
  case_bool_decide; [done|]. unfold wrap_dim.
  destruct (py_index (rank a) dim) as [k|]; [|done]. simpl.
  destruct (agree_off _ _ _); [|done]. intros [= <-]. by exists k.
Qed.

Lemma wf_augmentation (self : Augmenter.t elt) x a :
  (∀ m t, Augmenter.augment_func self = Some m → call m x = Ok t → wf t) →
  augmentation self x = Ok a → wf a.
Proof.
  intros Hf. unfold augmentation.
  destruct (Augmenter.augment_func self) as [m|] eqn:Ef; simpl.
  - destruct (truthy m); [by apply Hf|].
    destruct (py_setitem _ _ _) as [dims|]; [|done]. simpl.
    apply wf_torch_full.
  - destruct (py_setitem _ _ _) as [dims|]; [|done]. simpl.
    apply wf_torch_full.
Qed.

(** C9. [order] is only compared with 'first': any other value, valid or
    not, gives exactly what 'last' gives, with no check of [order].  And
    what it gives has the augmentation after [x]: in a returned tensor the
    slices of [x] come first along the axis and those of the augmentation
    tensor start where [x] ends (a 1-D empty tensor, which torch.cat leaves
    out, excepted). *)
Theorem Augmenter_order_not_first (i d : Z) (f : option (module elt))
    (o : string) x :
  o ≠ "first" →
  Augmenter.forward (Augmenter.make i d f o) x
  = Augmenter.forward (Augmenter.make i d f "last") x
  ∧ (wf x →
     (∀ m t, f = Some m → call m x = Ok t → wf t) →
     ∀ y, Augmenter.forward (Augmenter.make i d f o) x = Ok y →
       ∃ a, augmentation (Augmenter.make i d f o) x = Ok a
            ∧ (shape x ≠ [0] →
               ∃ k, py_index (rank x) i = Some k
                    ∧ narrow y k 0 (size x k) = x)
            ∧ (shape a ≠ [0] →
               ∃ k, py_index (rank a) i = Some k
                    ∧ narrow y k (size x k) (size a k) = a)
            ∧ (shape x ≠ [0] → shape a ≠ [0] →
               ∃ k, py_index (rank x) i = Some k ∧ y = cat_axis x a k)).
Proof.
  intros Ho. apply String.eqb_neq in Ho. split.
  - rewrite !Augmenter_forward_unfold. simpl. by rewrite Ho.
  - intros Hx Hf y. rewrite Augmenter_forward_unfold.
    cbn [Augmenter.order Augmenter.augment_idx]. rewrite Ho.
    destruct (augmentation _ x) as [a|] eqn:Ea; [|done]. simpl.
    intros Hy. exists a. split; [done|].
    assert (Ha : wf a)
      by (by apply (wf_augmentation (Augmenter.make i d f o) x a Hf Ea)).
    repeat split.
    + intros Sx. by apply (torch_cat_keeps_first x a i y).
    + intros Sa. by apply (torch_cat_second_follows x a i y).
    + intros Sx Sa. by apply (torch_cat_both x a i y).
Qed.

End OrderSpec.

(** * Repeated calls *)

Section Repeatable.
Context {elt : Type} `{Dtype elt} `{!DtypeUnit elt}.
Implicit Types (x t p : tensor elt) (sh sa sb : list nat).

Lemma broadcast_rev_nil_r (l : list nat) : broadcast_rev l [] = Some l.
Proof. by destruct l. Qed.

(** Broadcasting a result again against the same operand changes nothing. *)
Lemma broadcast_rev_absorb (ra rb r : list nat) :
  broadcast_rev ra rb = Some r → broadcast_rev r rb = Some r.
Proof.
  revert rb r. induction ra as [|n ra IH]; intros rb r.
  - simpl. intros [= <-]. apply broadcast_rev_diag.
  - destruct rb as [|m rb].
    + simpl. intros [= <-]. done.
    + simpl. destruct (broadcast_rev ra rb) as [r'|] eqn:E;
        [|by repeat case_bool_decide].
      specialize (IH rb r' E). intros Hr.
      repeat case_bool_decide; simplify_eq/=;
        repeat case_bool_decide; simplify_eq/=; by rewrite IH.
Qed.

Lemma broadcast_shapes_absorb sa sb sh :
  broadcast_shapes sa sb = Some sh → broadcast_shapes sh sb = Some sh.
Proof.
  unfold broadcast_shapes.
  destruct (broadcast_rev _ _) as [r|] eqn:E; [|done]. intros [= <-].
  rewrite reverse_involutive. by rewrite (broadcast_rev_absorb _ _ _ E).
Qed.

Lemma unsqueeze_data_full (v : elt) (n : nat) sh :
  unsqueeze_data n (full_data v sh) = full_data v (replicate n 1 ++ sh).
Proof.
  induction n as [|n IH]; [done|].
  change (unsqueeze_data (S n) (full_data v sh))
    with (Node [unsqueeze_data n (full_data v sh)]).
  by rewrite IH.
Qed.

(** A constant tensor expands to the constant tensor. *)
Lemma expand_data_full (v : elt) (src tgt : list nat) :
  Forall2 fits src tgt →
  expand_data src tgt (full_data v src) = full_data v tgt.
Proof.
  induction 1 as [|n m src tgt Hnm _ IH]; [done|].
  cbn [expand_data full_data children]. case_bool_decide as E.
  - subst m. f_equal. change (map ?g ?l) with (g <$> l).
    by rewrite fmap_replicate, IH.
  - destruct Hnm as [?| ->]; [done|]. simpl. by rewrite IH.
Qed.

Lemma expand_to_full (v : elt) sa sb sh :
  broadcast_shapes sa sb = Some sh →
  expand_to sh (full v sb) = full_data v sh.
Proof.
  intros E. destruct (broadcast_shapes_fits _ _ _ E) as [_ Fb].
  unfold expand_to. cbn [shape data full].
  rewrite unsqueeze_data_full. by apply expand_data_full.
Qed.

(** [(t * ones) * ones = t * ones]. *)
Lemma torch_mul_absorb t sb p :
  wf t → torch_mul t (full elt_one sb) = Ok p →
  torch_mul p (full elt_one sb) = Ok p.
Proof.
  intros Ht Hp. pose proof (wf_torch_mul _ _ _ Ht (wf_full _ _) Hp) as Wp.
  revert Hp. unfold torch_mul at 1. cbn [shape full].
  destruct (broadcast_shapes (shape t) sb) as [sh|] eqn:E; [|done].
  intros Hp. assert (Sp : shape p = sh) by (by injection Hp as <-).
  unfold torch_mul. cbn [shape full]. rewrite Sp.
  rewrite (broadcast_shapes_absorb _ _ _ E).
  rewrite (expand_to_full elt_one (shape t) sb sh E).
  rewrite <-Sp at 2. rewrite (expand_to_same p Wp).
  rewrite zip_data_ones_r by (rewrite <-Sp; exact Wp).
  rewrite <-Sp. by destruct p.
Qed.

(** A second [forward] on the same input finds an instance on which it does
    what the first one did, and leaves it as it is. *)
Lemma DepthCat_forward_again (self : DepthCat.t elt) x :
  wf x →
  (∀ t, DepthCat.s self = Some (DepthCat.Tens t) → wf t) →
  DepthCat.forward (DepthCat.forward self x).1 x = DepthCat.forward self x.
Proof.
  intros Hx Hs. unfold DepthCat.forward at 2 3.
  destruct (py_setitem (shape_list x) (DepthCat.idx_cat self) 1)
    as [dims|e] eqn:Ed; [|simpl; unfold DepthCat.forward; by rewrite Ed].
  simpl. destruct (torch_ones dims) as [ones|e] eqn:Eo;
    [|simpl; unfold DepthCat.forward; by rewrite Ed; simpl; rewrite Eo].
  simpl. unfold to.
  destruct (DepthCat.py_mul (DepthCat.s self) ones) as [p|e] eqn:Ep;
    [|simpl; unfold DepthCat.forward; rewrite Ed; simpl; rewrite Eo; simpl;
      unfold to; by rewrite Ep].
  cbn [fst]. unfold DepthCat.forward.
  cbn [DepthCat.idx_cat DepthCat.s DepthCat.set_s].
  rewrite Ed. simpl. rewrite Eo. simpl. unfold to.
  assert (Ones : ones = full elt_one (shape ones)).
  { revert Eo. unfold torch_ones, torch_full.
    destruct (forallb _ _); [|done]. by intros [= <-]. }
  assert (Hmul : torch_mul p ones = Ok p).
  { destruct (DepthCat.s self) as [[c|t]|] eqn:Es; simpl in Ep; [| |done].
    - injection Ep as <-. rewrite Ones at 2.
      assert (wf (tmap (λ e, elt_mul e c) ones)) as Wp.
      { rewrite Ones. rewrite tmap_full. apply wf_full. }
      apply (torch_mul_ones_r _ Wp).
    - rewrite Ones in Ep |- *.
      apply (torch_mul_absorb t); [by apply Hs|done]. }
  by rewrite Hmul.
Qed.


End Repeatable.

(** * Instances of the further properties *)

Lemma Augmenter_forward_unset_cases_witness :
  Augmenter.forward (Augmenter.make 5 3 (Some empty_sequential) "first") x_2x3
  = match py_index (rank x_2x3) 5 with
    | None => Raise (IndexError OpSetItem)
    | Some k =>
        if bool_decide (3 < 0)%Z then Raise (RuntimeError OpZeros)
        else Ok (if String.eqb "first" "first"
                 then cat_axis (zeros_block (Z.to_nat 3) x_2x3 k) x_2x3 k
                 else cat_axis x_2x3 (zeros_block (Z.to_nat 3) x_2x3 k) k)
    end.
Proof.
  apply (Augmenter_forward_unset_cases x_2x3 (Some empty_sequential) 5 3
           "first"); [exact I | reflexivity].
Defined.

Lemma Augmenter_forward_zero_dims_witness :
  Augmenter.forward (Augmenter.make (-1) 0 None "last") x_2x3 = Ok x_2x3.
Proof.
  apply (Augmenter_forward_zero_dims x_2x3 None (-1) 1 "last");
    [exact I | reflexivity | reflexivity].
Defined.

Lemma Augmenter_forward_twice_witness :
  ∃ y, Augmenter.forward (Augmenter.make 1 (Z.of_nat 2) None "first") x_2x3
       = Ok y
       ∧ Augmenter.forward (Augmenter.make 1 (Z.of_nat 3) None "first") y
         = Augmenter.forward
             (Augmenter.make 1 (Z.of_nat (2 + 3)) None "first") x_2x3.
Proof.
  apply (Augmenter_forward_twice x_2x3 None 1 2 3 1 "first");
    [exact I | reflexivity | reflexivity].
Defined.

Lemma Augmenter_forward_learned_witness :
  let a := tmap (Z.mul 2) x_2x3 in
  ∃ y, Augmenter.forward (Augmenter.make 1 5 (Some doubling) "first") x_2x3
       = Ok y
       ∧ y = (if String.eqb "first" "first"
              then cat_axis a x_2x3 1 else cat_axis x_2x3 a 1)
       ∧ wf y
       ∧ shape y = <[1 := size x_2x3 1 + size a 1]> (shape x_2x3)
       ∧ ("first" = "first" →
            narrow y 1 0 (size a 1) = a
            ∧ narrow y 1 (size a 1) (size x_2x3 1) = x_2x3)
       ∧ ("first" = "last" →
            narrow y 1 0 (size x_2x3 1) = x_2x3
            ∧ narrow y 1 (size x_2x3 1) (size a 1) = a).
Proof.
  apply (Augmenter_forward_learned x_2x3 (tmap (Z.mul 2) x_2x3) doubling
           1 5 1 "first"); reflexivity || exact I.
Defined.

Lemma Augmenter_forward_learned_mismatch_witness :
  fails_at OpCat
    (Augmenter.forward (Augmenter.make 1 5 (Some constant_2x3) "last") x_1x2).
Proof.
  apply (Augmenter_forward_learned_mismatch x_1x2 x_2x3 constant_2x3 1 5
           "last"); try reflexivity; try discriminate.
  intros (k & Hk & Hs). vm_compute in Hk. injection Hk as <-. discriminate Hs.
Defined.

Lemma Augmenter_forward_negative_idx_witness :
  Augmenter.forward
    (Augmenter.make (Z.of_nat 1 - Z.of_nat (rank x_2x3)) 2
                    (@None (module Z)) "last") x_2x3
  = Augmenter.forward (Augmenter.make (Z.of_nat 1) 2 None "last") x_2x3.
Proof.
  apply (Augmenter_forward_negative_idx x_2x3 None 2 1 "last");
    [reflexivity | vm_compute; lia].
Defined.

Lemma DepthCat_forward_any_axis_witness :
  ∃ y, (DepthCat.forward (DepthCat.make 0 (Some (DepthCat.Scalar 7%Z))) x_2x3).2
       = Ok y
       ∧ wf y
       ∧ shape y = <[0 := size x_2x3 0 + 1]> (shape x_2x3)
       ∧ narrow y 0 0 (size x_2x3 0) = x_2x3
       ∧ narrow y 0 (size x_2x3 0) 1 = depth_block 7%Z x_2x3 0
       ∧ ∀ idx, idx !! 0 = Some (size x_2x3 0) →
                Forall2 lt (<[0 := 0]> idx) (<[0 := 1]> (shape x_2x3)) →
                item y idx = Some 7%Z.
Proof.
  apply (DepthCat_forward_any_axis x_2x3 7%Z (DepthCat.Scalar 7%Z) 0 0);
    [exact I | reflexivity | left; reflexivity].
Defined.

Lemma DepthCat_forward_bad_axis_witness :
  let self := DepthCat.make 1 (Some (DepthCat.Scalar 7%Z)) in
  DepthCat.forward self x_2 = (self, Raise (IndexError OpSetItem))
  ∧ (shape x_2 = [] →
     ∀ self', DepthCat.forward self' x_2
              = (self', Raise (IndexError OpSetItem))).
Proof.
  apply (DepthCat_forward_bad_axis
           (DepthCat.make 1 (Some (DepthCat.Scalar 7%Z))) x_2).
  reflexivity.
Defined.

Lemma DepthCat_forward_per_sample_witness :
  let self := DepthCat.make 1 (Some (DepthCat.Tens column_2x1)) in
  ∃ y, DepthCat.forward self x_2x3 = (self, Ok y)
       ∧ wf y
       ∧ shape y = <[1 := size x_2x3 1 + 1]> (shape x_2x3)
       ∧ narrow y 1 0 (size x_2x3 1) = x_2x3
       ∧ narrow y 1 (size x_2x3 1) 1 = column_2x1.
Proof.
  apply (DepthCat_forward_per_sample
           (DepthCat.make 1 (Some (DepthCat.Tens column_2x1))) x_2x3
           column_2x1 1); reflexivity || exact I.
Defined.

Lemma DepthCat_forward_raises_after_write_witness :
  let self := DepthCat.make 1 (Some (DepthCat.Tens s_1x1x1)) in
  DepthCat.forward self x_2x3
  = (DepthCat.set_s self (Some (DepthCat.Tens s_1x2x1)),
     Raise (RuntimeError OpCat)).
Proof.
  apply (DepthCat_forward_raises_after_write
           (DepthCat.make 1 (Some (DepthCat.Tens s_1x1x1))) x_2x3
           s_1x1x1 s_1x2x1 1); reflexivity || discriminate.
Defined.

Lemma DepthCat_forward_stale_depth_witness :
  let self1 :=
    (DepthCat.forward (DepthCat.make 1 (Some (DepthCat.Scalar 7%Z))) x_2x3).1 in
  DepthCat.forward self1 x_3x2 = (self1, Raise (RuntimeError OpMul)).
Proof.
  apply (DepthCat_forward_stale_depth x_2x3 x_3x2 7%Z (DepthCat.Scalar 7%Z)
           2 3 3 2); try (reflexivity || exact I || lia).
  left; reflexivity.
Defined.

Lemma DepthCat_forward_negative_idx_witness :
  let neg := DepthCat.make (Z.of_nat 1 - Z.of_nat (rank x_2x3))
                           (Some (DepthCat.Scalar 7%Z)) in
  let pos := DepthCat.make (Z.of_nat 1) (Some (DepthCat.Scalar 7%Z)) in
  (DepthCat.forward neg x_2x3).2 = (DepthCat.forward pos x_2x3).2
  ∧ DepthCat.s (DepthCat.forward neg x_2x3).1
    = DepthCat.s (DepthCat.forward pos x_2x3).1.
Proof.
  apply (DepthCat_forward_negative_idx x_2x3 7%Z (DepthCat.Scalar 7%Z) 1);
    [exact I | vm_compute; lia | left; reflexivity].
Defined.

Lemma DataControl_forward_any_rank_witness :
  ∃ y, DataControl.forward (DataControl.make (Some u_1x1x2)) x_1x2x2 = Ok y
       ∧ wf y
       ∧ shape y = <[1 := size x_1x2x2 1 + size u_1x1x2 1]> (shape x_1x2x2)
       ∧ narrow y 1 0 (size x_1x2x2 1) = x_1x2x2
       ∧ narrow y 1 (size x_1x2x2 1) (size u_1x1x2 1) = u_1x1x2.
Proof.
  apply (DataControl_forward_any_rank x_1x2x2 u_1x1x2);
    try (reflexivity || exact I).
  vm_compute; lia.
Defined.

Lemma DataControl_forward_cases_witness :
  DataControl.forward (DataControl.make (Some s_0dim)) x_2
  = if bool_decide (rank x_2 = 0 ∨ rank s_0dim = 0)
    then Raise (RuntimeError OpCat)
    else if bool_decide (rank x_2 = 1) then Raise (IndexError OpCat)
    else if bool_decide (<[1 := 0]> (shape x_2) = <[1 := 0]> (shape s_0dim))
         then Ok (cat_axis x_2 s_0dim 1)
         else Raise (RuntimeError OpCat).
Proof.
  apply (DataControl_forward_cases x_2 s_0dim); discriminate.
Defined.

Lemma forward_keeps_wf_witness :
  let a := Augmenter.make 1 2 (Some doubling) "first" in
  let dc := DepthCat.make 1 (Some (DepthCat.Tens column_2x1)) in
  let c := DataControl.make (Some u_2x2) in
  (∀ y, Augmenter.forward a x_2x3 = Ok y → wf y)
  ∧ (∀ y, (DepthCat.forward dc x_2x3).2 = Ok y → wf y)
  ∧ (∀ t, DepthCat.s (DepthCat.forward dc x_2x3).1 = Some (DepthCat.Tens t) →
          wf t)
  ∧ (∀ y, DataControl.forward c x_2x3 = Ok y → wf y).
Proof.
  apply (forward_keeps_wf x_2x3 (Augmenter.make 1 2 (Some doubling) "first")
           (DepthCat.make 1 (Some (DepthCat.Tens column_2x1)))
           (DataControl.make (Some u_2x2))).
  - exact I.
  - intros m t [= <-] [= <-]. exact I.
  - intros t [= <-]. exact I.
  - intros t [= <-]. exact I.
Defined.

Lemma DepthCat_forward_vector_depth_witness :
  let self := DepthCat.make 1 (Some (DepthCat.Tens x_2)) in
  let p := Tensor [2; 2] (Node (replicate 2 (data x_2))) in
  ∃ y, DepthCat.forward self x_2x3
       = (DepthCat.set_s self (Some (DepthCat.Tens p)), Ok y)
       ∧ shape y = [2; 3 + 2]
       ∧ narrow y 1 0 3 = x_2x3
       ∧ narrow y 1 3 2 = p
       ∧ (∀ i j, i < 2 → item y [i; 3 + j] = item x_2 [j]).
Proof.
  apply (DepthCat_forward_vector_depth x_2x3 x_2 2 3 2);
    reflexivity || exact I.
Defined.

Lemma forward_preserves_input_witness :
  let a := Augmenter.make 1 2 (Some doubling) "first" in
  let dc := DepthCat.make 1 (Some (DepthCat.Tens column_2x1)) in
  let c := DataControl.make (Some u_2x2) in
  (∀ y, Augmenter.forward a x_2x3 = Ok y →
        ∃ k, py_index (rank x_2x3) (Augmenter.augment_idx a) = Some k
             ∧ if String.eqb (Augmenter.order a) "first"
               then narrow y k (size y k - size x_2x3 k) (size x_2x3 k) = x_2x3
               else narrow y k 0 (size x_2x3 k) = x_2x3)
  ∧ (∀ y, (DepthCat.forward dc x_2x3).2 = Ok y →
          ∃ k, py_index (rank x_2x3) (DepthCat.idx_cat dc) = Some k
               ∧ narrow y k 0 (size x_2x3 k) = x_2x3)
  ∧ (∀ y, DataControl.forward c x_2x3 = Ok y →
          ∃ k, py_index (rank x_2x3) 1 = Some k
               ∧ narrow y k 0 (size x_2x3 k) = x_2x3).
Proof.
  apply (forward_preserves_input x_2x3
           (Augmenter.make 1 2 (Some doubling) "first")
           (DepthCat.make 1 (Some (DepthCat.Tens column_2x1)))
           (DataControl.make (Some u_2x2))).
  - exact I.
  - discriminate.
  - intros m t [= <-] [= <-]. exact I.
  - intros t [= <-]. exact I.
  - intros t [= <-]. exact I.
Defined.

(** * Instances for the order and for repeated calls *)

Lemma Augmenter_order_not_first_witness :
  let x := x_2x3 in
  let y := matrix [[1; 2; 3; 0; 0]; [4; 5; 6; 0; 0]]%Z in
  Augmenter.forward (Augmenter.make 1 2 (@None (module Z)) "frist") x
  = Augmenter.forward (Augmenter.make 1 2 None "last") x
  ∧ Augmenter.forward (Augmenter.make 1 2 None "frist") x = Ok y
  ∧ ∃ a, augmentation (Augmenter.make 1 2 None "frist") x = Ok a
         ∧ (∃ k, py_index (rank x) 1 = Some k ∧ narrow y k 0 (size x k) = x)
         ∧ (∃ k, py_index (rank a) 1 = Some k
                 ∧ narrow y k (size x k) (size a k) = a)
         ∧ (∃ k, py_index (rank x) 1 = Some k ∧ y = cat_axis x a k).
Proof.
  intros x y.
  destruct (Augmenter_order_not_first 1 2 (@None (module Z)) "frist" x)
    as [E P]; [discriminate|].
  split; [exact E|]. split; [reflexivity|].
  destruct (P I (λ m t (Hm : None = Some m) _, False_ind _ (Some_ne_None _ (eq_sym Hm)))
              y eq_refl) as (a & Ea & P1 & P2 & P3).
  exists a. split; [exact Ea|].
  assert (Sa : shape a ≠ [0])
    by (vm_compute in Ea; injection Ea as <-; discriminate).
  assert (Sx : shape x ≠ [0]) by discriminate.
  split; [exact (P1 Sx)|]. split; [exact (P2 Sa)|exact (P3 Sx Sa)].
Defined.


